(** * D-RISE runner: detector adapter and saliency orchestration

    A shallow embedding of [vision_explanation_methods/DRISE_runner.py]:
    the [PytorchFasterRCNNWrapper.predict] adapter (suppression, confidence
    filtering, score expansion, objectness synthesis) and the driver
    [get_drise_saliency_map] (NaN filtering, placeholder handling, panel
    assembly), followed by the properties stated for them.

    Numbers are exact rationals ([Q]); a saliency tensor element is either a
    rational or [NaN].  Python exceptions are the [Raise] results of a small
    state-and-error monad whose state holds the mutable prediction
    dictionaries and the files written. *)

From Stdlib Require Import QArith Lqa Lia.
From stdpp Require Import gmap strings list fin_maps.

Set Default Proof Using "Type".

(* ===================================================================== *)
(** * Exceptions and results *)
(* ===================================================================== *)

Inductive exn :=
  | IndexError       (* subscript or index tensor out of range, mask shape mismatch *)
  | TypeError        (* subscripting a single matplotlib Axes *)
  | AttributeError   (* calling an Axes method on an array of Axes *)
  | Dangling.        (* reference to an object that was never created: cannot
                        happen in Python, makes [load] total here *)

Inductive result (A : Type) :=
  | Ok (a : A)
  | Raise (e : exn).
Arguments Ok {A} a.
Arguments Raise {A} e.

#[export] Instance result_ret : MRet result := fun A a => Ok a.
#[export] Instance result_bind : MBind result := fun A B f m =>
  match m with
  | Ok a => f a
  | Raise e => Raise e
  end.

Definition of_option {A} (e : exn) (o : option A) : result A :=
  match o with
  | Some a => Ok a
  | None => Raise e
  end.

(* ===================================================================== *)
(** * Tensors *)
(* ===================================================================== *)

(** Element of a saliency tensor. *)
Inductive float :=
  | NaN
  | Num (q : Q).

(** A saliency tensor, flattened. *)
Definition Tensor := list float.

(** A decoded image (pixel data). *)
Definition Image := list Q.

Record Box := mkBox { bx1 : Q; by1 : Q; bx2 : Q; by2 : Q }.

(** [x < y] on rationals, as a boolean. *)
Definition Qltb (x y : Q) : bool := negb (Qle_bool y x).

(** [torch.isnan(t)], elementwise. *)
Definition isnan (t : Tensor) : list bool :=
  (fun x => match x with NaN => true | Num _ => false end) <$> t.

(** [mask.any()]. *)
Definition any (mask : list bool) : bool := foldr orb false mask.

(** [t > s], elementwise comparison of a tensor with a scalar. *)
Definition gt (t : list Q) (s : Q) : list bool := (fun x => Qltb s x) <$> t.

(** [t[keep]] for an integer index tensor [keep]: an index out of range
    raises. *)
Fixpoint index_select {A} (t : list A) (keep : list nat) : result (list A) :=
  match keep with
  | [] => Ok []
  | i :: keep' =>
      a ← of_option IndexError (t !! i);
      r ← index_select t keep';
      Ok (a :: r)
  end.

(** [t[keep]] for a boolean mask [keep]: the mask must have the length of
    the tensor. *)
Fixpoint mask_select {A} (t : list A) (keep : list bool) : result (list A) :=
  match t, keep with
  | [], [] => Ok []
  | a :: t', b :: keep' =>
      r ← mask_select t' keep';
      Ok (if b then a :: r else r)
  | _, _ => Raise IndexError
  end.

(** [torch.argmax] of a one-dimensional tensor: the index of the first
    maximal value; an empty tensor raises. *)
Fixpoint argmax_from (best_i : nat) (best : Q) (i : nat) (t : list Q) : nat :=
  match t with
  | [] => best_i
  | x :: t' =>
      if Qltb best x then argmax_from i x (S i) t'
      else argmax_from best_i best (S i) t'
  end.

Definition argmax (t : list Q) : result nat :=
  match t with
  | [] => Raise IndexError
  | x :: t' => Ok (argmax_from 0 x 1 t')
  end.

(** [sum(row)]. *)
Definition Qsum (row : list Q) : Q := foldr Qplus 0%Q row.

(* ===================================================================== *)
(** * Detection records and score expansion *)
(* ===================================================================== *)

(** [od_common.DetectionRecord]: one record per image.  The class is declared
    in [explanations/common.py]; its fields are the keyword arguments of the
    constructor call in [predict]. *)
Record DetectionRecord := mkDetectionRecord {
  bounding_boxes : list Box;
  class_scores : list (list Q);
  objectness_scores : list Q
}.

(** The score every class other than the predicted one receives. *)
Definition residual (c : Q) (number_of_classes : nat) : Q :=
  ((1 - c) / (inject_Z (Z.of_nat number_of_classes) - 1))%Q.

(** One expanded row: the predicted class [k] keeps its confidence [c], every
    other class gets the residual. *)
Definition expand_row (c : Q) (k number_of_classes : nat) : list Q :=
  (fun j => if Nat.eqb j k then c else residual c number_of_classes)
    <$> seq 0 number_of_classes.

(** Modelled from the spec: [od_common.expand_class_scores] is defined in
    [explanations/common.py], which is not among the sources.  Per the
    specification (4.1, step 3) the predicted class retains its reported
    confidence and the remaining mass [1 - confidence] is spread uniformly
    across all other classes, one row per surviving box. *)
Definition expand_class_scores
    (scores : list Q) (labels : list nat) (number_of_classes : nat) : list (list Q) :=
  zip_with (fun c k => expand_row c k number_of_classes) scores labels.

(* ===================================================================== *)
(** * The world: prediction dictionaries and files *)
(* ===================================================================== *)

(** A raw prediction dictionary with its keys ['boxes'], ['scores'] and
    ['labels']. *)
Record Prediction := mkPrediction {
  boxes : list Box;
  scores : list Q;
  labels : list nat
}.

Definition set_boxes (v : list Box) (p : Prediction) : Prediction :=
  {| boxes := v; scores := scores p; labels := labels p |}.
Definition set_scores (v : list Q) (p : Prediction) : Prediction :=
  {| boxes := boxes p; scores := v; labels := labels p |}.
Definition set_labels (v : list nat) (p : Prediction) : Prediction :=
  {| boxes := boxes p; scores := scores p; labels := v |}.

(** [patches.Rectangle((x, y), width, height, ..., label=label)]. *)
Record Rectangle := mkRectangle {
  rect_x : Q;
  rect_y : Q;
  rect_width : Q;
  rect_height : Q;
  rect_label : nat;          (* the text drawn is [str(label)] *)
  rect_edgecolor : string
}.

(** One matplotlib Axes: the heat map blended onto the image, the title and
    the patches added so far. *)
Record Axes := mkAxes {
  ax_heat_map : option (Tensor * Image);
  ax_title : option nat;     (* the [i] of the title "Detection i" *)
  ax_patches : list Rectangle
}.

Definition empty_axes : Axes :=
  {| ax_heat_map := None; ax_title := None; ax_patches := [] |}.

(** What [plt.subplots(1, n)] hands back as its second component: with the
    default [squeeze=True] a single Axes object for [n = 1], an array of
    Axes otherwise. *)
Inductive axes :=
  | SingleAxes (a : Axes)
  | AxesArray (l : list Axes).

(** The figure shares its Axes objects with the value bound to [axis]. *)
Definition Figure := axes.

Inductive artifact :=
  | ImageFile (img : Image)
  | FigureFile (fig : Figure).

Definition loc := nat.

Record world := mkWorld {
  heap : gmap loc Prediction;
  files : gmap string artifact
}.

(** State-and-error monad: an exception leaves the world as it was when it
    was raised. *)
Definition M (A : Type) : Type := world → result A * world.

#[export] Instance M_ret : MRet M := fun A a w => (Ok a, w).
#[export] Instance M_bind : MBind M := fun A B f m w =>
  match m w with
  | (Ok a, w') => f a w'
  | (Raise e, w') => (Raise e, w')
  end.

Definition raise {A} (e : exn) : M A := fun w => (Raise e, w).

Definition lift {A} (r : result A) : M A := fun w => (r, w).

(** Creating a dictionary object. *)
Definition alloc (p : Prediction) : M loc := fun w =>
  let l := fresh (dom (heap w)) in
  (Ok l, {| heap := <[l := p]> (heap w); files := files w |}).

Definition load (l : loc) : M Prediction := fun w =>
  (of_option Dangling (heap w !! l), w).

(** [d[key] = v], through the setter of the key. *)
Definition setitem (l : loc) (set : Prediction → Prediction) : M unit := fun w =>
  match heap w !! l with
  | Some p => (Ok tt, {| heap := <[l := set p]> (heap w); files := files w |})
  | None => (Raise Dangling, w)
  end.

(** [Image.save(path)] and [fig.savefig(path)]. *)
Definition save (path : string) (a : artifact) : M unit := fun w =>
  (Ok tt, {| heap := heap w; files := <[path := a]> (files w) |}).

Fixpoint for_each {A B} (f : A → M B) (l : list A) : M (list B) :=
  match l with
  | [] => mret []
  | a :: l' => b ← f a; r ← for_each f l'; mret (b :: r)
  end.

(** A [for] loop threading a loop variable. *)
Fixpoint for_loop {A S} (body : A → S → M S) (l : list A) (s : S) : M S :=
  match l with
  | [] => mret s
  | a :: l' => s' ← body a s; for_loop body l' s'
  end.

(** [d[key]]. *)
Definition getitem {V} (l : loc) (key : Prediction → V) : M V :=
  p ← load l; mret (key p).

(* ===================================================================== *)
(** * The detector adapter: [PytorchFasterRCNNWrapper] *)
(* ===================================================================== *)

(** A detection model: for a batch of images, the contents of the
    dictionaries it returns, one per image.  Every call creates new
    dictionary objects. *)
Definition Detector := list Image → list Prediction.

Record PytorchFasterRCNNWrapper := mkWrapper {
  _model : Detector;
  _number_of_classes : nat
}.

Section Adapter.

(** [torchvision.ops.nms boxes scores iou_threshold]: the indices of the
    boxes kept.  A library function, left open here. *)
Variable nms : list Box → list Q → Q → list nat.

Definition apply_nms (orig_prediction : loc) (iou_thresh : Q) : M loc :=
  b ← getitem orig_prediction boxes;
  s ← getitem orig_prediction scores;
  let keep := nms b s iou_thresh in
  let nms_prediction := orig_prediction in
  v ← getitem nms_prediction boxes;
  v ← lift (index_select v keep);
  _ ← setitem nms_prediction (set_boxes v);
  v ← getitem nms_prediction scores;
  v ← lift (index_select v keep);
  _ ← setitem nms_prediction (set_scores v);
  v ← getitem nms_prediction labels;
  v ← lift (index_select v keep);
  _ ← setitem nms_prediction (set_labels v);
  mret nms_prediction.

Definition filter_score (orig_prediction : loc) (score_thresh : Q) : M loc :=
  s ← getitem orig_prediction scores;
  let keep := gt s score_thresh in
  let filter_prediction := orig_prediction in
  v ← getitem filter_prediction boxes;
  v ← lift (mask_select v keep);
  _ ← setitem filter_prediction (set_boxes v);
  v ← getitem filter_prediction scores;
  v ← lift (mask_select v keep);
  _ ← setitem filter_prediction (set_scores v);
  v ← getitem filter_prediction labels;
  v ← lift (mask_select v keep);
  _ ← setitem filter_prediction (set_labels v);
  mret filter_prediction.

(** The body of the loop of [predict], for one raw detection. *)
Definition predict_one (number_of_classes : nat) (raw_detection : loc)
    : M DetectionRecord :=
  raw_detection ← apply_nms raw_detection 0.005%Q;
  raw_detection ← filter_score raw_detection 0.2%Q;
  s ← getitem raw_detection scores;
  l ← getitem raw_detection labels;
  let expanded_class_scores := expand_class_scores s l number_of_classes in
  b ← getitem raw_detection boxes;
  b' ← getitem raw_detection boxes;
  mret {| bounding_boxes := b;
          class_scores := expanded_class_scores;
          objectness_scores := replicate (length b') 1%Q |}.

Definition predict (self : PytorchFasterRCNNWrapper) (x : list Image)
    : M (list DetectionRecord) :=
  raw_detections ← for_each alloc (_model self x);
  for_each (predict_one (_number_of_classes self)) raw_detections.

(** ** The same steps on the contents of one dictionary *)

Definition nms_content (p : Prediction) (iou_thresh : Q) : result Prediction :=
  let keep := nms (boxes p) (scores p) iou_thresh in
  b ← index_select (boxes p) keep;
  s ← index_select (scores p) keep;
  l ← index_select (labels p) keep;
  Ok {| boxes := b; scores := s; labels := l |}.

Definition filter_content (p : Prediction) (score_thresh : Q) : result Prediction :=
  let keep := gt (scores p) score_thresh in
  b ← mask_select (boxes p) keep;
  s ← mask_select (scores p) keep;
  l ← mask_select (labels p) keep;
  Ok {| boxes := b; scores := s; labels := l |}.

Definition record_of (number_of_classes : nat) (p : Prediction) : DetectionRecord :=
  {| bounding_boxes := boxes p;
     class_scores := expand_class_scores (scores p) (labels p) number_of_classes;
     objectness_scores := replicate (length (boxes p)) 1%Q |}.

(** What is left of a raw detection after suppression and filtering. *)
Definition survivors (p : Prediction) : result Prediction :=
  p ← nms_content p 0.005%Q; filter_content p 0.2%Q.

Definition adapt (number_of_classes : nat) (p : Prediction) : result DetectionRecord :=
  p ← survivors p; Ok (record_of number_of_classes p).

Fixpoint adapt_all (number_of_classes : nat) (raw : list Prediction)
    : result (list DetectionRecord) :=
  match raw with
  | [] => Ok []
  | p :: raw' =>
      r ← adapt number_of_classes p;
      rs ← adapt_all number_of_classes raw';
      Ok (r :: rs)
  end.

(** The number of boxes of the dictionary returned by a run of
    [filter_score]. *)
Definition surviving_count (l : loc) (score_thresh : Q) (w : world) : option nat :=
  match filter_score l score_thresh w with
  | (Ok l', w') => (λ p, length (boxes p)) <$> heap w' !! l'
  | (Raise _, _) => None
  end.

End Adapter.

(** ** A reference suppression routine

    Greedy suppression as the library documents it: the boxes are visited by
    decreasing score and one is kept unless its intersection-over-union with
    a box kept before exceeds the threshold; the kept indices come out by
    decreasing score. *)

Definition Qmax (a b : Q) : Q := if Qle_bool a b then b else a.
Definition Qmin (a b : Q) : Q := if Qle_bool a b then a else b.

Definition box_area (b : Box) : Q := ((bx2 b - bx1 b) * (by2 b - by1 b))%Q.

Definition box_iou (a b : Box) : Q :=
  let w := Qmax 0 (Qmin (bx2 a) (bx2 b) - Qmax (bx1 a) (bx1 b)) in
  let h := Qmax 0 (Qmin (by2 a) (by2 b) - Qmax (by1 a) (by1 b)) in
  let inter := (w * h)%Q in
  (inter / (box_area a + box_area b - inter))%Q.

Fixpoint insert_by_score (s : list Q) (i : nat) (sorted : list nat) : list nat :=
  match sorted with
  | [] => [i]
  | j :: rest =>
      if Qle_bool (default 0%Q (s !! j)) (default 0%Q (s !! i))
      then i :: j :: rest
      else j :: insert_by_score s i rest
  end.

Definition by_decreasing_score (s : list Q) : list nat :=
  foldr (insert_by_score s) [] (seq 0 (length s)).

Definition overlaps (b : list Box) (iou_thresh : Q) (i j : nat) : bool :=
  match b !! i, b !! j with
  | Some bi, Some bj => Qltb iou_thresh (box_iou bi bj)
  | _, _ => false
  end.

Fixpoint greedy_keep (b : list Box) (iou_thresh : Q) (kept order : list nat)
    : list nat :=
  match order with
  | [] => kept
  | i :: order' =>
      if existsb (overlaps b iou_thresh i) kept
      then greedy_keep b iou_thresh kept order'
      else greedy_keep b iou_thresh (kept ++ [i]) order'
  end.

Definition greedy_nms (b : list Box) (s : list Q) (iou_thresh : Q) : list nat :=
  greedy_keep b iou_thresh [] (by_decreasing_score s).

(* ===================================================================== *)
(** * The orchestrator: [get_drise_saliency_map] *)
(* ===================================================================== *)

(** One raw saliency result: the dictionary the estimator returns for a
    detection, with its ['detection'] tensor. *)
Record SaliencyResult := mkSaliencyResult { detection : Tensor }.

(** [plt.subplots(1, n)]. *)
Definition subplots (n : nat) : axes :=
  if decide (n = 1) then SingleAxes empty_axes
  else AxesArray (replicate n empty_axes).

(** [axis[i]]: a single Axes object is not subscriptable. *)
Definition axes_getitem (axis : axes) (i : nat) : result Axes :=
  match axis with
  | SingleAxes _ => Raise TypeError
  | AxesArray l => of_option IndexError (l !! i)
  end.

(** [axis[i] = a]. *)
Definition axes_setitem (axis : axes) (i : nat) (a : Axes) : result axes :=
  match axis with
  | SingleAxes _ => Raise TypeError
  | AxesArray l =>
      if decide (i < length l) then Ok (AxesArray (<[i := a]> l))
      else Raise IndexError
  end.

(** [viz.visualize_image_attr(attr, original_image, method="blended_heat_map",
    ..., title="Detection " + str(i), plt_fig_axis=(fig, ax))]: draws on
    [ax]. *)
Definition visualize_image_attr
    (attr : Tensor) (original_image : Image) (title : nat) (ax : Axes) : Axes :=
  {| ax_heat_map := Some (attr, original_image);
     ax_title := Some title;
     ax_patches := ax_patches ax |}.

Definition plot_img_bbox (ax : Axes) (box : Box) (label : nat) (color : string) : Axes :=
  let '(x, y, width, height) :=
    (bx1 box, by1 box, (bx2 box - bx1 box)%Q, (by2 box - by1 box)%Q) in
  let rect :=
    {| rect_x := x; rect_y := y; rect_width := width; rect_height := height;
       rect_label := label; rect_edgecolor := color |} in
  {| ax_heat_map := ax_heat_map ax;
     ax_title := ax_title ax;
     ax_patches := ax_patches ax ++ [rect] |}.

(** The validity test of the list comprehension:
    [torch.isnan(r['detection']).any() == False]. *)
Definition valid (r : SaliencyResult) : Prop := any (isnan (detection r)) = false.

#[export] Instance valid_dec r : Decision (valid r).
Proof. unfold valid. apply _. Defined.

(** One iteration of the rendering loop; [axis] is the loop's view of the
    variable of that name.  The last [else] of the source is not reachable:
    [type(axis) != list] holds for an Axes object and for an array of them
    alike. *)
Definition draw_panel
    (detections : list DetectionRecord) (saliency_scores : list SaliencyResult)
    (test_image : Image) (savename : string) (num_detections img_index : nat)
    (i : nat) (axis : axes) : M axes :=
  r ← lift (of_option IndexError (saliency_scores !! i));
  ax ← lift (axes_getitem axis i);
  axis ← lift (axes_setitem axis i
                 (visualize_image_attr (detection r) test_image i ax));
  d ← lift (of_option IndexError (detections !! img_index));
  box ← lift (of_option IndexError (bounding_boxes d !! i));
  d ← lift (of_option IndexError (detections !! img_index));
  row ← lift (of_option IndexError (class_scores d !! i));
  label ← lift (argmax row);
  axis ←
    (if decide (1 < num_detections) then
       ax ← lift (axes_getitem axis i);
       lift (axes_setitem axis i (plot_img_bbox ax box label "r"))
     else
       match axis with
       | SingleAxes ax => mret (SingleAxes (plot_img_bbox ax box label "r"))
       | AxesArray _ => raise AttributeError
       end);
  _ ← save savename (FigureFile axis);
  mret axis.

Section Orchestrator.

Variable nms : list Box → list Q → Q → list nat.

(** [Image.open(path)], decoded; reading image files is taken to succeed. *)
Variable Image_open : string → Image.

(** The pretrained detector and the loader of a fine-tuned one. *)
Variable pretrained : Detector.
Variable load_user_model : string → nat → Detector.

(** [drise.DRISE_saliency]: the randomized masking estimator, an external
    collaborator; per image, one raw saliency result per target
    detection. *)
Variable DRISE_saliency :
  PytorchFasterRCNNWrapper → list Image → list DetectionRecord → nat → nat * nat →
  list (list SaliencyResult).

(** The model chosen and wrapped: the pretrained one, with 91 classes,
    when no model location is given. *)
Definition explainable_wrapper_of
    (modellocation : option string) (numclasses : nat) : PytorchFasterRCNNWrapper :=
  let '(model, numclasses) :=
    match modellocation with
    | None | Some "" => (pretrained, 91)
    | Some path => (load_user_model path numclasses, numclasses)
    end in
  {| _model := model; _number_of_classes := numclasses |}.

(** The statements after the estimator has returned. *)
Definition present_saliency
    (detections : list DetectionRecord)
    (saliency_scores : list (list SaliencyResult))
    (test_image : Image) (savename : string)
    : M (option (Figure * string)) :=
  let img_index := 0 in
  s ← lift (of_option IndexError (saliency_scores !! img_index));
  let saliency_scores := filter valid s in
  let num_detections := length saliency_scores in
  if decide (num_detections = 0) then
    let fail := Image_open "images/notfound.png" in
    _ ← save savename (ImageFile fail);
    mret None
  else
    let axis := subplots num_detections in
    axis ← for_loop
             (draw_panel detections saliency_scores test_image savename
                num_detections img_index)
             (seq 0 num_detections) axis;
    mret (Some (axis, savename)).

Definition get_drise_saliency_map
    (imagelocation : string) (modellocation : option string) (numclasses : nat)
    (savename : string) (nummasks : nat) (maskres : nat * nat)
    : M (option (Figure * string)) :=
  let test_image := Image_open imagelocation in
  let explainable_wrapper := explainable_wrapper_of modellocation numclasses in
  detections ← predict nms explainable_wrapper (replicate 2 test_image);
  let saliency_scores :=
    DRISE_saliency explainable_wrapper (replicate 2 test_image) detections
      nummasks maskres in
  present_saliency detections saliency_scores test_image savename.

End Orchestrator.

(* ===================================================================== *)
(** * Notions used in the statements *)
(* ===================================================================== *)

(** The number of positions a mask keeps. *)
Definition count_true (keep : list bool) : nat := length (filter (λ b, b = true) keep).

(** [m] is the first index holding a maximal value of [t]. *)
Definition first_max (t : list Q) (m : nat) : Prop :=
  ∃ v, t !! m = Some v ∧
       (∀ j x, t !! j = Some x → (x <= v)%Q) ∧
       (∀ j x, j < m → t !! j = Some x → (x < v)%Q).

(** An action that writes no file. *)
Definition keeps_files {A} (m : M A) : Prop := ∀ w, files (snd (m w)) = files w.

(** The Axes objects of a figure. *)
Definition axes_list (axis : axes) : list Axes :=
  match axis with
  | SingleAxes a => [a]
  | AxesArray l => l
  end.

(** No heat map drawn on the figure contains a NaN. *)
Definition figure_clean (fig : Figure) : Prop :=
  ∀ a t img, a ∈ axes_list fig → ax_heat_map a = Some (t, img) →
             any (isnan t) = false.

(** Every figure file of [w'] was already there in [w] or is clean. *)
Definition saved_figures_clean (w w' : world) : Prop :=
  ∀ path fig, files w' !! path = Some (FigureFile fig) →
              files w !! path = Some (FigureFile fig) ∨ figure_clean fig.

(** What one iteration of the rendering loop guarantees: a clean figure that
    is also the file at [savename], or, when it raises, only clean figure
    files. *)
Definition panel_post (w0 : world) (savename : string) (out : result axes * world) : Prop :=
  match out with
  | (Ok axis', w') =>
      figure_clean axis' ∧ saved_figures_clean w0 w' ∧
      files w' !! savename = Some (FigureFile axis')
  | (Raise _, w') => saved_figures_clean w0 w'
  end.

(* ===================================================================== *)
(** * Example inputs *)
(* ===================================================================== *)

Definition example_box : Box := mkBox 10 10 50 50.

(** One box of class 3 with confidence 0.9. *)
Definition example_raw : Prediction :=
  {| boxes := [example_box]; scores := [0.9%Q]; labels := [3] |}.

(** One box whose confidence is exactly the default threshold. *)
Definition boundary_raw : Prediction :=
  {| boxes := [example_box]; scores := [0.2%Q]; labels := [1] |}.

(** One box of class 1 among two classes, with confidence 0.3. *)
Definition low_confidence_raw : Prediction :=
  {| boxes := [example_box]; scores := [0.3%Q]; labels := [1] |}.

(** One box below the default threshold. *)
Definition noise_raw : Prediction :=
  {| boxes := [example_box]; scores := [0.1%Q]; labels := [1] |}.

(** Three disjoint boxes of classes 1, 2 and 3. *)
Definition box_0 : Box := mkBox 0 0 10 10.
Definition box_1 : Box := mkBox 20 20 30 30.
Definition box_2 : Box := mkBox 40 40 50 50.

Definition three_raw : Prediction :=
  {| boxes := [box_0; box_1; box_2];
     scores := [0.9%Q; 0.8%Q; 0.7%Q];
     labels := [1; 2; 3] |}.

(** Detectors that report the same detections for every image of the
    batch. *)
Definition constant_detector (p : Prediction) : Detector := λ x, (λ _, p) <$> x.

(** An estimator with a fixed outcome. *)
Definition constant_estimator (sal : list (list SaliencyResult))
    : PytorchFasterRCNNWrapper → list Image → list DetectionRecord → nat → nat * nat →
      list (list SaliencyResult) :=
  λ _ _ _ _ _, sal.

Definition nan_map : SaliencyResult := {| detection := [Num 0.5%Q; NaN] |}.
Definition map_1 : SaliencyResult := {| detection := [Num 0.25%Q; Num 0.75%Q] |}.
Definition map_2 : SaliencyResult := {| detection := [Num 1%Q; Num 0%Q] |}.

Definition example_image : Image := [0.5%Q].
Definition notfound_image : Image := [0%Q].

Definition example_open (path : string) : Image :=
  if String.eqb path "images/notfound.png" then notfound_image else example_image.

Definition empty_world : world := {| heap := ∅; files := ∅ |}.

(** A run on an image with three detections whose first saliency map holds
    a NaN. *)
Definition example_run : result (option (Figure * string)) * world :=
  get_drise_saliency_map greedy_nms example_open
    (constant_detector three_raw) (λ _ _, constant_detector three_raw)
    (constant_estimator [[nan_map; map_1; map_2]; [nan_map; map_1; map_2]])
    "images/cartons.jpg" (Some "model.pt") 5 "res/outputmaps.jpg" 25 (4, 4)
    empty_world.

(* ===================================================================== *)
(** * Further notions *)
(* ===================================================================== *)

(** The detections of a prediction as (box, (score, label)) triples. *)
Definition triples (p : Prediction) : list (Box * (Q * nat)) :=
  zip (boxes p) (zip (scores p) (labels p)).


(** An action that changes no dictionary outside [ls]. *)
Definition touches_only {A} (ls : list loc) (m : M A) : Prop :=
  ∀ w l', l' ∉ ls → heap (snd (m w)) !! l' = heap w !! l'.

(** What the rendering loop draws on panel [i]: the heat map of the [i]-th
    valid result, then the box and label found at position [i] of the
    detection record of image [img_index]. *)
Definition panel (detections : list DetectionRecord) (vs : list SaliencyResult)
    (img : Image) (img_index i : nat) : result Axes :=
  r ← of_option IndexError (vs !! i);
  d ← of_option IndexError (detections !! img_index);
  box ← of_option IndexError (bounding_boxes d !! i);
  row ← of_option IndexError (class_scores d !! i);
  label ← argmax row;
  Ok (plot_img_bbox (visualize_image_attr (detection r) img i empty_axes) box label "r").

(** A suppression routine that answers with an index no tensor has. *)
Definition stray_nms : list Box → list Q → Q → list nat := λ _ _ _, [5].

(** A prediction with a score and a label but no box. *)
Definition boxless_raw : Prediction :=
  {| boxes := []; scores := [0.9%Q]; labels := [1] |}.

(** A prediction with a box and a score but no label. *)
Definition unlabelled_raw : Prediction :=
  {| boxes := [example_box]; scores := [0.9%Q]; labels := [] |}.

(* ===================================================================== *)
(** * Properties *)
(* ===================================================================== *)

(** ** Comparisons and tensor indexing *)

Lemma Qltb_lt (x y : Q) : Qltb x y = true ↔ (x < y)%Q.
Proof.
  unfold Qltb. rewrite negb_true_iff, <- not_true_iff_false, Qle_bool_iff.
  split; [apply Qnot_le_lt | apply Qlt_not_le].
Qed.

Lemma Qltb_ge (x y : Q) : Qltb x y = false ↔ (y <= x)%Q.
Proof.
  unfold Qltb. rewrite negb_false_iff. apply Qle_bool_iff.
Qed.

Lemma length_gt (t : list Q) (s : Q) : length (gt t s) = length t.
Proof. unfold gt. apply length_fmap. Qed.

Lemma index_select_length {A} (t : list A) (keep : list nat) (r : list A) :
  index_select t keep = Ok r → length r = length keep.
Proof.
  revert r. induction keep as [|i keep IH]; intros r; simpl.
  - intros [= <-]. reflexivity.
  - destruct (t !! i) as [a|]; simpl; [|discriminate].
    destruct (index_select t keep) as [r'|e]; simpl; [|discriminate].
    intros [= <-]. simpl. f_equal. apply IH. reflexivity.
Qed.


(** A mask selects exactly the positions where it is true. *)
Lemma mask_select_ok {A} (t : list A) (keep : list bool) :
  length keep = length t →
  mask_select t keep = Ok (fst <$> filter (λ ab, ab.2 = true) (zip t keep)).
Proof.
  revert keep. induction t as [|a t IH]; intros [|b keep]; simpl; try done.
  intros [= Hlen]. rewrite (IH keep Hlen). simpl.
  destruct b; rewrite ?filter_cons_True, ?filter_cons_False by (simpl; congruence);
    reflexivity.
Qed.

Lemma mask_select_length_eq {A} (t : list A) (keep : list bool) (r : list A) :
  mask_select t keep = Ok r → length keep = length t.
Proof.
  revert keep r. induction t as [|a t IH]; intros [|b keep] r; simpl; try done.
  destruct (mask_select t keep) as [r'|e] eqn:E; simpl; [|discriminate].
  intros _. f_equal. eapply IH, E.
Qed.

Lemma mask_select_count {A} (t : list A) (keep : list bool) (r : list A) :
  mask_select t keep = Ok r → length r = count_true keep.
Proof.
  unfold count_true.
  revert keep r. induction t as [|a t IH]; intros [|b keep] r; simpl; try done.
  - intros [= <-]. reflexivity.
  - destruct (mask_select t keep) as [r'|e] eqn:E; simpl; [|discriminate].
    intros [= <-]. specialize (IH _ _ E).
    destruct b; rewrite ?filter_cons_True, ?filter_cons_False by congruence;
      simpl; congruence.
Qed.

(** ** Score expansion *)

Lemma expand_row_length (c : Q) (k C : nat) : length (expand_row c k C) = C.
Proof. unfold expand_row. by rewrite length_fmap, length_seq. Qed.

Lemma expand_row_lookup (c : Q) (k C j : nat) :
  j < C →
  expand_row c k C !! j = Some (if Nat.eqb j k then c else residual c C).
Proof.
  intros Hj. unfold expand_row.
  rewrite list_lookup_fmap, lookup_seq_lt by done. reflexivity.
Qed.

Lemma Qsum_row_from (c r : Q) (k s n : nat) :
  (Qsum ((λ j, if Nat.eqb j k then c else r) <$> seq s n) ==
   inject_Z (Z.of_nat n) * r + (if decide (s ≤ k < s + n) then c - r else 0))%Q.
Proof.
  revert s. induction n as [|n IH]; intros s.
  - simpl. case_decide; [lia|]. ring.
  - cbn [seq fmap list_fmap Qsum foldr]. fold (Qsum ((λ j, if Nat.eqb j k then c else r) <$> seq (S s) n)).
    rewrite IH. rewrite Nat2Z.inj_succ. unfold Z.succ. rewrite inject_Z_plus.
    destruct (Nat.eqb_spec s k) as [->|Hne].
    + rewrite decide_False by lia. rewrite decide_True by lia. ring.
    + destruct (decide (S s ≤ k < S s + n)).
      * rewrite decide_True by lia. ring.
      * rewrite decide_False by lia. ring.
Qed.

Lemma inject_nat_ge_2 (C : nat) : 2 ≤ C → (1 < inject_Z (Z.of_nat C) - 1)%Q ∨ (inject_Z (Z.of_nat C) - 1 == 1)%Q.
Proof.
  intros HC. destruct (decide (C = 2)) as [->|Hne].
  - right. reflexivity.
  - left. assert (H : (inject_Z 2 < inject_Z (Z.of_nat C))%Q)
      by (rewrite <- Zlt_Qlt; lia).
    change (inject_Z 2) with 2%Q in H. lra.
Qed.

Lemma Qsum_expand_row (c : Q) (k C : nat) :
  2 ≤ C → k < C → (Qsum (expand_row c k C) == 1)%Q.
Proof.
  intros HC Hk. unfold expand_row. rewrite Qsum_row_from.
  rewrite decide_True by lia. unfold residual.
  assert (Hd : ¬ (inject_Z (Z.of_nat C) - 1 == 0)%Q)
    by (destruct (inject_nat_ge_2 C HC); lra).
  field. exact Hd.
Qed.

(** ** [argmax] returns the first maximal index *)

Lemma first_max_unique (t : list Q) (m1 m2 : nat) :
  first_max t m1 → first_max t m2 → m1 = m2.
Proof.
  intros (v1 & H1 & Hmax1 & Hlt1) (v2 & H2 & Hmax2 & Hlt2).
  destruct (lt_eq_lt_dec m1 m2) as [[Hlt|Heq]|Hgt]; [|done|].
  - specialize (Hlt2 _ _ Hlt H1). specialize (Hmax1 _ _ H2). lra.
  - specialize (Hlt1 _ _ Hgt H2). specialize (Hmax2 _ _ H1). lra.
Qed.

Lemma argmax_from_first_max (pre t : list Q) (best_i : nat) (best : Q) :
  pre !! best_i = Some best →
  first_max pre best_i →
  first_max (pre ++ t) (argmax_from best_i best (length pre) t).
Proof.
  revert pre best_i best. induction t as [|x t IH]; intros pre bi b Hb Hfm; simpl.
  - by rewrite app_nil_r.
  - destruct Hfm as (v & Hv & Hmax & Hlt).
    assert (v = b) as -> by congruence.
    replace (pre ++ x :: t) with ((pre ++ [x]) ++ t) by (by rewrite <- app_assoc).
    replace (S (length pre)) with (length (pre ++ [x]))
      by (rewrite length_app; simpl; lia).
    destruct (Qltb b x) eqn:E.
    + apply Qltb_lt in E. apply IH.
      * by rewrite lookup_app_r, Nat.sub_diag.
      * exists x. split; [by rewrite lookup_app_r, Nat.sub_diag|]. split.
        -- intros j y Hj. apply lookup_app_Some in Hj as [Hj|[_ Hj]].
           ++ specialize (Hmax _ _ Hj). lra.
           ++ apply list_lookup_singleton_Some in Hj as [_ <-]. lra.
        -- intros j y Hlj Hj. rewrite lookup_app_l in Hj by done.
           specialize (Hmax _ _ Hj). lra.
    + apply Qltb_ge in E. apply IH.
      * apply lookup_app_l_Some, Hb.
      * exists b. split; [apply lookup_app_l_Some, Hb|]. split.
        -- intros j y Hj. apply lookup_app_Some in Hj as [Hj|[_ Hj]].
           ++ by eapply Hmax.
           ++ by apply list_lookup_singleton_Some in Hj as [_ <-].
        -- intros j y Hlj Hj. apply lookup_lt_Some in Hb.
           rewrite lookup_app_l in Hj by lia. by eapply Hlt.
Qed.

Lemma argmax_first_max (t : list Q) (m : nat) :
  argmax t = Ok m ↔ first_max t m.
Proof.
  destruct t as [|x t].
  - split; [discriminate|]. intros (v & Hv & _). done.
  - assert (Hfm : first_max (x :: t) (argmax_from 0 x 1 t)).
    { apply (argmax_from_first_max [x] t 0 x); [done|].
      exists x. split; [done|]. split.
      - intros j y Hj. apply list_lookup_singleton_Some in Hj as [_ <-]. lra.
      - intros j y Hj. lia. }
    simpl. split.
    + by intros [= <-].
    + intros Hm. f_equal. eapply first_max_unique; eassumption.
Qed.

Lemma residual_lt_confidence (c : Q) (C : nat) :
  5 ≤ C → (0.2 < c)%Q → (residual c C < c)%Q.
Proof.
  intros HC Hc. unfold residual.
  assert (H : (inject_Z 5 <= inject_Z (Z.of_nat C))%Q)
    by (rewrite <- Zle_Qle; lia).
  change (inject_Z 5) with 5%Q in H.
  set (d := inject_Z (Z.of_nat C)) in *.
  apply Qlt_shift_div_r; [lra|].
  assert (H1 : (0 <= (c - 0.2) * (d - 5))%Q) by (apply Qmult_le_0_compat; lra).
  lra.
Qed.

(** When the label read back from an expanded row is the predicted class. *)
Lemma argmax_expand_row (c : Q) (k C : nat) :
  2 ≤ C → k < C →
  argmax (expand_row c k C) = Ok k ↔
  (residual c C < c)%Q ∨ ((residual c C == c)%Q ∧ k = 0).
Proof.
  intros HC Hk. rewrite argmax_first_max. split.
  - intros (v & Hv & Hmax & Hlt).
    rewrite expand_row_lookup, Nat.eqb_refl in Hv by done.
    injection Hv as <-.
    destruct (decide (k = 0)) as [->|Hk0].
    + specialize (Hmax 1 (residual c C)).
      rewrite expand_row_lookup in Hmax by lia. simpl in Hmax.
      specialize (Hmax eq_refl).
      destruct (Qlt_le_dec (residual c C) c); [by left|right].
      split; [lra|done].
    + left. apply (Hlt 0); [lia|].
      rewrite expand_row_lookup by lia.
      destruct (Nat.eqb_spec 0 k); [lia|done].
  - intros Hcase. exists c. split; [|split].
    + by rewrite expand_row_lookup, Nat.eqb_refl.
    + intros j x Hj. pose proof (lookup_lt_Some _ _ _ Hj) as Hlen.
      rewrite expand_row_length in Hlen.
      rewrite expand_row_lookup in Hj by done. injection Hj as <-.
      destruct (Nat.eqb j k); [lra|]. destruct Hcase as [?|[? _]]; lra.
    + intros j x Hjk Hj. rewrite expand_row_lookup in Hj by lia.
      injection Hj as <-. destruct (Nat.eqb_spec j k); [lia|].
      destruct Hcase as [?|[_ ?]]; [done|lia].
Qed.

(** ** Running the monad *)

Lemma result_bind_ok {A B} (a : A) (f : A → result B) : Ok a ≫= f = f a.
Proof. reflexivity. Qed.

Lemma result_bind_raise {A B} (e : exn) (f : A → result B) : Raise e ≫= f = Raise e.
Proof. reflexivity. Qed.

Lemma bind_run {A B} (m : M A) (f : A → M B) (w : world) :
  (m ≫= f) w =
  match m w with
  | (Ok a, w') => f a w'
  | (Raise e, w') => (Raise e, w')
  end.
Proof. reflexivity. Qed.

Lemma bind_run_ok {A B} (m : M A) (f : A → M B) (w w' : world) (a : A) :
  m w = (Ok a, w') → (m ≫= f) w = f a w'.
Proof. intros H. by rewrite bind_run, H. Qed.

Lemma bind_run_raise {A B} (m : M A) (f : A → M B) (w : world) (e : exn) :
  fst (m w) = Raise e → fst ((m ≫= f) w) = Raise e.
Proof. rewrite bind_run. destruct (m w) as [[a|e'] w']; simpl; congruence. Qed.

Lemma getitem_run {V} (l : loc) (key : Prediction → V) (w : world) (p : Prediction) :
  heap w !! l = Some p → getitem l key w = (Ok (key p), w).
Proof. intros H. unfold getitem. rewrite bind_run. unfold load. by rewrite H. Qed.

Lemma setitem_run (l : loc) (set : Prediction → Prediction) (w : world) (p : Prediction) :
  heap w !! l = Some p →
  setitem l set w = (Ok tt, mkWorld (<[l := set p]> (heap w)) (files w)).
Proof. intros H. unfold setitem. by rewrite H. Qed.

Ltac points_to := cbn [heap]; first [eassumption | apply lookup_insert_eq].

(** One step of a run: a dictionary read, a dictionary write or a lifted
    pure computation at the head of a bind. *)
Ltac mstep :=
  rewrite bind_run;
  first [ erewrite getitem_run by points_to
        | erewrite setitem_run by points_to
        | unfold lift at 1 ];
  cbv beta iota.

Lemma keeps_files_ret {A} (a : A) : keeps_files (mret a).
Proof. done. Qed.

Lemma keeps_files_bind {A B} (m : M A) (f : A → M B) :
  keeps_files m → (∀ a, keeps_files (f a)) → keeps_files (m ≫= f).
Proof.
  intros Hm Hf w. rewrite bind_run. specialize (Hm w).
  destruct (m w) as [[a|e] w']; simpl in *; [|done].
  by rewrite Hf.
Qed.

Lemma keeps_files_lift {A} (r : result A) : keeps_files (lift r).
Proof. done. Qed.

Lemma keeps_files_load (l : loc) : keeps_files (load l).
Proof. done. Qed.

Lemma keeps_files_getitem {V} (l : loc) (key : Prediction → V) : keeps_files (getitem l key).
Proof.
  apply keeps_files_bind; [apply keeps_files_load|intros; apply keeps_files_ret].
Qed.

Lemma keeps_files_setitem (l : loc) (set : Prediction → Prediction) :
  keeps_files (setitem l set).
Proof. intros w. unfold setitem. by destruct (heap w !! l). Qed.

Lemma keeps_files_alloc (p : Prediction) : keeps_files (alloc p).
Proof. done. Qed.

Lemma keeps_files_for_each {A B} (f : A → M B) (l : list A) :
  (∀ a, keeps_files (f a)) → keeps_files (for_each f l).
Proof.
  intros Hf. induction l as [|a l IH]; simpl; [apply keeps_files_ret|].
  apply keeps_files_bind; [apply Hf|]. intros b.
  apply keeps_files_bind; [apply IH|]. intros r. apply keeps_files_ret.
Qed.

Create HintDb keeps_files.
#[export] Hint Resolve keeps_files_ret keeps_files_lift keeps_files_load
  keeps_files_getitem keeps_files_setitem keeps_files_alloc : keeps_files.

Ltac keeps_files :=
  repeat first [ progress cbv zeta
               | solve [auto with keeps_files]
               | apply keeps_files_bind; [|intros ?] ].

(** ** The adapter on the heap and on contents *)

Section AdapterRuns.

Variable nms : list Box → list Q → Q → list nat.

Lemma apply_nms_ok (w : world) (l : loc) (p p' : Prediction) (t : Q) :
  heap w !! l = Some p → nms_content nms p t = Ok p' →
  apply_nms nms l t w = (Ok l, mkWorld (<[l := p']> (heap w)) (files w)).
Proof.
  intros Hl H. unfold nms_content in H.
  destruct (index_select (boxes p) _) as [b|] eqn:Eb; [|done].
  destruct (index_select (scores p) _) as [s|] eqn:Es; [|done].
  destruct (index_select (labels p) _) as [k|] eqn:Ek; [|done].
  injection H as <-. unfold apply_nms.
  repeat mstep. rewrite Eb. cbv beta iota.
  repeat mstep. cbn [scores set_boxes]. rewrite Es. cbv beta iota.
  repeat mstep. cbn [labels set_scores set_boxes]. rewrite Ek. cbv beta iota.
  repeat mstep. cbn. by rewrite !insert_insert_eq.
Qed.

Lemma apply_nms_raise (w : world) (l : loc) (p : Prediction) (t : Q) (e : exn) :
  heap w !! l = Some p → nms_content nms p t = Raise e →
  fst (apply_nms nms l t w) = Raise e.
Proof.
  intros Hl H. unfold nms_content in H. unfold apply_nms.
  repeat mstep.
  destruct (index_select (boxes p) _) as [b|]; [|by injection H as <-].
  cbv beta iota. repeat mstep. cbn [scores set_boxes].
  destruct (index_select (scores p) _) as [s|]; [|by injection H as <-].
  cbv beta iota. repeat mstep. cbn [labels set_scores set_boxes].
  destruct (index_select (labels p) _) as [k|]; [done|by injection H as <-].
Qed.

Lemma filter_score_ok (w : world) (l : loc) (p p' : Prediction) (t : Q) :
  heap w !! l = Some p → filter_content p t = Ok p' →
  filter_score l t w = (Ok l, mkWorld (<[l := p']> (heap w)) (files w)).
Proof.
  intros Hl H. unfold filter_content in H.
  destruct (mask_select (boxes p) _) as [b|] eqn:Eb; [|done].
  destruct (mask_select (scores p) _) as [s|] eqn:Es; [|done].
  destruct (mask_select (labels p) _) as [k|] eqn:Ek; [|done].
  injection H as <-. unfold filter_score.
  repeat mstep. rewrite Eb. cbv beta iota.
  repeat mstep. cbn [scores set_boxes]. rewrite Es. cbv beta iota.
  repeat mstep. cbn [labels set_scores set_boxes]. rewrite Ek. cbv beta iota.
  repeat mstep. cbn. by rewrite !insert_insert_eq.
Qed.

Lemma filter_score_raise (w : world) (l : loc) (p : Prediction) (t : Q) (e : exn) :
  heap w !! l = Some p → filter_content p t = Raise e →
  fst (filter_score l t w) = Raise e.
Proof.
  intros Hl H. unfold filter_content in H. unfold filter_score.
  repeat mstep.
  destruct (mask_select (boxes p) _) as [b|]; [|by injection H as <-].
  cbv beta iota. repeat mstep. cbn [scores set_boxes].
  destruct (mask_select (scores p) _) as [s|]; [|by injection H as <-].
  cbv beta iota. repeat mstep. cbn [labels set_scores set_boxes].
  destruct (mask_select (labels p) _) as [k|]; [done|by injection H as <-].
Qed.

Lemma predict_one_ok (C : nat) (w : world) (l : loc) (p : Prediction)
    (r : DetectionRecord) :
  heap w !! l = Some p → adapt nms C p = Ok r →
  ∃ p', predict_one nms C l w = (Ok r, mkWorld (<[l := p']> (heap w)) (files w)).
Proof.
  intros Hl H. unfold adapt, survivors in H.
  destruct (nms_content nms p _) as [p1|] eqn:E1; [|done].
  rewrite result_bind_ok in H.
  destruct (filter_content p1 _) as [p2|] eqn:E2; [|done].
  injection H as <-. exists p2. unfold predict_one.
  rewrite (bind_run_ok _ _ _ _ _ (apply_nms_ok _ _ _ _ _ Hl E1)).
  erewrite bind_run_ok by (eapply filter_score_ok; [points_to|exact E2]).
  repeat mstep. cbn. by rewrite insert_insert_eq.
Qed.

Lemma predict_one_raise (C : nat) (w : world) (l : loc) (p : Prediction) (e : exn) :
  heap w !! l = Some p → adapt nms C p = Raise e →
  fst (predict_one nms C l w) = Raise e.
Proof.
  intros Hl H. unfold adapt, survivors in H. unfold predict_one.
  destruct (nms_content nms p _) as [p1|e1] eqn:E1.
  - rewrite result_bind_ok in H.
    rewrite (bind_run_ok _ _ _ _ _ (apply_nms_ok _ _ _ _ _ Hl E1)).
    destruct (filter_content p1 _) as [p2|e2] eqn:E2; [done|].
    injection H as <-. apply bind_run_raise.
    eapply filter_score_raise; [points_to|exact E2].
  - injection H as <-. apply bind_run_raise. by eapply apply_nms_raise.
Qed.

Lemma keeps_files_predict_one (C : nat) (l : loc) : keeps_files (predict_one nms C l).
Proof. unfold predict_one, apply_nms, filter_score. keeps_files. Qed.

Lemma keeps_files_predict (self : PytorchFasterRCNNWrapper) (x : list Image) :
  keeps_files (predict nms self x).
Proof.
  unfold predict. apply keeps_files_bind.
  - apply keeps_files_for_each, keeps_files_alloc.
  - intros ls. apply keeps_files_for_each, keeps_files_predict_one.
Qed.

(** Creating the raw dictionaries: new, pairwise distinct objects holding
    the detector's output. *)
Lemma for_each_alloc (ps : list Prediction) (w : world) :
  ∃ ls w', for_each alloc ps w = (Ok ls, w') ∧
           NoDup ls ∧
           Forall (λ l, heap w !! l = None) ls ∧
           Forall2 (λ l p, heap w' !! l = Some p) ls ps ∧
           heap w ⊆ heap w'.
Proof.
  revert w. induction ps as [|p ps IH]; intros w.
  - exists [], w. split; [done|]. do 3 (split; [constructor|]). done.
  - set (l := fresh (dom (heap w))).
    assert (Hl : heap w !! l = None)
      by (apply not_elem_of_dom, is_fresh).
    set (w1 := mkWorld (<[l := p]> (heap w)) (files w)).
    destruct (IH w1) as (ls & w' & Hrun & Hnd & Hfresh & Hpts & Hsub).
    exists (l :: ls), w'. split; [|split; [|split; [|split]]].
    + cbn [for_each]. rewrite bind_run. change (alloc p w) with (Ok l, w1).
      cbv beta iota. rewrite bind_run, Hrun. reflexivity.
    + constructor; [|done]. intros Hin.
      rewrite Forall_forall in Hfresh. specialize (Hfresh _ Hin).
      subst w1. cbn [heap] in Hfresh. by rewrite lookup_insert_eq in Hfresh.
    + constructor; [done|]. eapply Forall_impl; [exact Hfresh|].
      intros l' Hl'. subst w1. cbn [heap] in Hl'.
      apply lookup_insert_None in Hl'. tauto.
    + constructor; [|done].
      eapply lookup_weaken; [|exact Hsub]. subst w1. cbn [heap].
      apply lookup_insert_eq.
    + etrans; [|exact Hsub]. subst w1. cbn [heap]. by apply insert_subseteq.
Qed.

Lemma for_each_predict_one (C : nat) (ls : list loc) (ps : list Prediction) (w : world) :
  NoDup ls → Forall2 (λ l p, heap w !! l = Some p) ls ps →
  fst (for_each (predict_one nms C) ls w) = adapt_all nms C ps.
Proof.
  intros Hnd Hpts. revert w Hnd Hpts.
  induction ps as [|p ps IH] in ls |- *; intros w Hnd Hpts.
  - apply Forall2_nil_inv_r in Hpts as ->. reflexivity.
  - apply Forall2_cons_inv_r in Hpts as (l & ls' & Hl & Hpts & ->).
    apply NoDup_cons in Hnd as [Hnotin Hnd].
    cbn [for_each adapt_all].
    destruct (adapt nms C p) as [r|e] eqn:E.
    + destruct (predict_one_ok C w l p r Hl E) as [p' Hrun].
      rewrite (bind_run_ok _ _ _ _ _ Hrun), result_bind_ok.
      rewrite bind_run.
      match goal with |- context [for_each _ ls' ?w1] =>
        specialize (IH ls' w1 Hnd) end.
      rewrite <- IH.
      * destruct (for_each _ ls' _) as [[rs|e] w2]; reflexivity.
      * apply Forall2_same_length_lookup in Hpts as [Hlen Hpts].
        apply Forall2_same_length_lookup. split; [done|].
        intros i l' p0 Hl' Hp0. cbn [heap].
        rewrite lookup_insert_ne; [by eapply Hpts|].
        intros ->. apply Hnotin. by eapply list_elem_of_lookup_2.
    + rewrite result_bind_raise. apply bind_run_raise.
      by apply predict_one_raise with p.
Qed.

(** The result of [predict] is determined by the contents of the detector's
    output, whatever the heap holds. *)
Lemma predict_result (self : PytorchFasterRCNNWrapper) (x : list Image) (w : world) :
  fst (predict nms self x w) = adapt_all nms (_number_of_classes self) (_model self x).
Proof.
  unfold predict.
  destruct (for_each_alloc (_model self x) w) as (ls & w' & Hrun & Hnd & _ & Hpts & _).
  rewrite (bind_run_ok _ _ _ _ _ Hrun).
  by apply for_each_predict_one.
Qed.

End AdapterRuns.

(** ** Confidence filtering *)

Lemma gt_lookup (t : list Q) (s : Q) (i : nat) :
  gt t s !! i = Some true ↔ ∃ x, t !! i = Some x ∧ (s < x)%Q.
Proof.
  unfold gt. rewrite list_lookup_fmap. destruct (t !! i) as [x|]; simpl.
  - split.
    + intros [= H]. exists x. split; [done|]. by apply Qltb_lt.
    + intros (y & [= <-] & H). f_equal. by apply Qltb_lt.
  - split; [done|]. by intros (y & ? & _).
Qed.

Lemma count_true_gt_mono (t : list Q) (t1 t2 : Q) :
  (t1 <= t2)%Q → count_true (gt t t2) ≤ count_true (gt t t1).
Proof.
  intros Hle. unfold count_true, gt.
  induction t as [|x t IH]; [done|]. cbn [fmap list_fmap].
  destruct (Qltb t2 x) eqn:E2.
  - assert (E1 : Qltb t1 x = true) by (apply Qltb_lt; apply Qltb_lt in E2; lra).
    rewrite E1, !filter_cons_True by done. simpl. lia.
  - rewrite (filter_cons_False _ false) by done.
    destruct (Qltb t1 x).
    + rewrite filter_cons_True by done. simpl. lia.
    + by rewrite filter_cons_False by done.
Qed.

Lemma filter_content_count (p p' : Prediction) (t : Q) :
  filter_content p t = Ok p' →
  length (boxes p') = count_true (gt (scores p) t) ∧
  length (scores p') = count_true (gt (scores p) t) ∧
  length (labels p') = count_true (gt (scores p) t).
Proof.
  unfold filter_content. intros H.
  destruct (mask_select (boxes p) _) as [b|] eqn:Eb; [|done].
  destruct (mask_select (scores p) _) as [s|] eqn:Es; [|done].
  destruct (mask_select (labels p) _) as [k|] eqn:Ek; [|done].
  injection H as <-. cbn [boxes scores labels].
  split; [|split]; by eapply mask_select_count.
Qed.

Lemma filter_content_well_formed (p : Prediction) (t : Q) :
  length (boxes p) = length (scores p) → length (labels p) = length (scores p) →
  ∃ p', filter_content p t = Ok p'.
Proof.
  intros Hb Hl. unfold filter_content.
  rewrite !mask_select_ok by (rewrite length_gt; congruence).
  rewrite !result_bind_ok. eauto.
Qed.

Section AdapterProperties.

Variable nms : list Box → list Q → Q → list nat.

Lemma surviving_count_ok (w : world) (l : loc) (p p' : Prediction) (t : Q) :
  heap w !! l = Some p → filter_content p t = Ok p' →
  surviving_count l t w = Some (count_true (gt (scores p) t)).
Proof.
  intros Hl H. unfold surviving_count.
  rewrite (filter_score_ok _ _ _ _ _ Hl H). cbn [heap].
  rewrite lookup_insert_eq. cbn. f_equal.
  by apply filter_content_count in H as [-> _].
Qed.

Lemma surviving_count_Some (w : world) (l : loc) (p : Prediction) (t : Q) (n : nat) :
  heap w !! l = Some p → surviving_count l t w = Some n →
  n = count_true (gt (scores p) t).
Proof.
  intros Hl H. destruct (filter_content p t) as [p'|e] eqn:E.
  - rewrite (surviving_count_ok _ _ _ _ _ Hl E) in H. congruence.
  - pose proof (filter_score_raise _ _ _ _ _ Hl E) as Hr.
    unfold surviving_count in H.
    destruct (filter_score l t w) as [[l'|e'] w']; simpl in Hr; done.
Qed.

Lemma survivors_lengths (p p' : Prediction) :
  survivors nms p = Ok p' →
  length (boxes p') = length (scores p') ∧ length (labels p') = length (scores p').
Proof.
  unfold survivors. destruct (nms_content nms p _) as [p1|]; [|done].
  rewrite result_bind_ok. intros H.
  apply filter_content_count in H as (-> & -> & ->). done.
Qed.

Lemma expand_class_scores_length (s : list Q) (l : list nat) (C : nat) :
  length l = length s → length (expand_class_scores s l C) = length s.
Proof. intros H. unfold expand_class_scores. rewrite length_zip_with. lia. Qed.

Lemma adapt_inv (C : nat) (p : Prediction) (r : DetectionRecord) :
  adapt nms C p = Ok r →
  ∃ p', survivors nms p = Ok p' ∧ r = record_of C p'.
Proof.
  unfold adapt. destruct (survivors nms p) as [p'|]; [|done].
  rewrite result_bind_ok. intros [= <-]. eauto.
Qed.

Lemma adapt_all_Forall2 (C : nat) (ps : list Prediction) (rs : list DetectionRecord) :
  adapt_all nms C ps = Ok rs ↔ Forall2 (λ p r, adapt nms C p = Ok r) ps rs.
Proof.
  revert rs. induction ps as [|p ps IH]; intros rs; cbn [adapt_all].
  - split.
    + intros [= <-]. constructor.
    + intros ->%Forall2_nil_inv_l. done.
  - split.
    + destruct (adapt nms C p) as [r|] eqn:E; [|done]. rewrite result_bind_ok.
      destruct (adapt_all nms C ps) as [rs'|] eqn:E'; [|done].
      rewrite result_bind_ok. intros [= <-]. constructor; [done|]. by apply IH.
    + intros (r & rs' & Hr & Hrs & ->)%Forall2_cons_inv_l.
      rewrite Hr, result_bind_ok. apply IH in Hrs. by rewrite Hrs.
Qed.

End AdapterProperties.

(* ===================================================================== *)
(** * The detector adapter: stated properties *)
(* ===================================================================== *)

(** C1.  For a raw detection that survives suppression and confidence
    filtering with confidence [c] and predicted class [k], the row of
    expanded class scores in the record [predict] returns for its image holds
    [c] at [k], [(1 - c) / (C - 1)] at every other class, and sums to 1.
    The class count [C] is at least 2 and [k] is one of the [C] classes, as
    the formula in the statement requires. *)
Theorem expanded_row_of_surviving_detection
    (nms : list Box → list Q → Q → list nat)
    (self : PytorchFasterRCNNWrapper) (x : list Image) (w : world)
    (recs : list DetectionRecord) (n : nat)
    (p p' : Prediction) (i k : nat) (c : Q) :
  2 ≤ _number_of_classes self → k < _number_of_classes self →
  fst (predict nms self x w) = Ok recs →
  _model self x !! n = Some p →
  survivors nms p = Ok p' →
  scores p' !! i = Some c → labels p' !! i = Some k →
  ∃ rec row,
    recs !! n = Some rec ∧ class_scores rec !! i = Some row ∧
    row !! k = Some c ∧
    (∀ j, j < _number_of_classes self → j ≠ k →
          row !! j
          = Some ((1 - c) / (inject_Z (Z.of_nat (_number_of_classes self)) - 1))%Q) ∧
    (Qsum row == 1)%Q.
Proof.
  intros HC Hk Hrecs Hp Hs Hc Hl.
  rewrite predict_result in Hrecs. apply adapt_all_Forall2 in Hrecs.
  destruct (Forall2_lookup_l _ _ _ _ _ Hrecs Hp) as (rec & Hrec & Hadapt).
  apply adapt_inv in Hadapt as (p'' & Hs' & ->).
  assert (p'' = p') as -> by congruence.
  exists (record_of (_number_of_classes self) p'), (expand_row c k (_number_of_classes self)).
  split; [done|]. split; [|split; [|split]].
  - cbn [record_of class_scores]. unfold expand_class_scores.
    by rewrite lookup_zip_with, Hc, Hl.
  - by rewrite expand_row_lookup, Nat.eqb_refl.
  - intros j Hj Hne. rewrite expand_row_lookup by done.
    by destruct (Nat.eqb_spec j k).
  - by apply Qsum_expand_row.
Qed.

(** C3 (as amended).  With at least two classes and [k] among them, the
    label read back from the expanded row is the predicted class [k] exactly
    when the confidence [c] exceeds the score given to the other classes, or
    equals it and [k] is class 0; this is the case whenever there are at
    least five classes, since a surviving confidence exceeds 0.2. *)
Theorem label_is_predicted_class (c : Q) (k C : nat) :
  2 ≤ C → k < C →
  (argmax (expand_row c k C) = Ok k ↔
   ((1 - c) / (inject_Z (Z.of_nat C) - 1) < c)%Q ∨
   (((1 - c) / (inject_Z (Z.of_nat C) - 1) == c)%Q ∧ k = 0)) ∧
  (5 ≤ C → (0.2 < c)%Q → argmax (expand_row c k C) = Ok k).
Proof.
  intros HC Hk. split.
  - by apply argmax_expand_row.
  - intros HC5 Hc. apply argmax_expand_row; [done..|].
    left. by apply residual_lt_confidence.
Qed.

(** C6.  At the default threshold a box whose confidence is exactly 0.2 is
    discarded although its confidence is not below the threshold: the mask
    is [scores > score_thresh]. *)
Theorem filter_score_discards_threshold_confidence :
  ¬ (0.2 < 0.2)%Q ∧
  gt [0.2%Q] 0.2%Q = [false] ∧
  filter_content boundary_raw 0.2%Q = Ok (mkPrediction [] [] []) ∧
  filter_score 0 0.2%Q (mkWorld {[0 := boundary_raw]} ∅)
    = (Ok 0, mkWorld {[0 := mkPrediction [] [] []]} ∅).
Proof.
  split; [lra|]. split; [reflexivity|]. split; [reflexivity|].
  erewrite filter_score_ok; [|apply lookup_singleton_eq|reflexivity].
  cbn [heap files]. by rewrite insert_singleton_eq.
Qed.

(** C7.  For a fixed raw prediction and thresholds [t1 <= t2], the number of
    boxes left by [filter_score] at [t2] is at most the number left at [t1];
    for a prediction with as many boxes as scores and labels both runs
    return. *)
Theorem raising_threshold_never_adds_boxes
    (w : world) (l : loc) (p : Prediction) (t1 t2 : Q) :
  heap w !! l = Some p → (t1 <= t2)%Q →
  (∀ n1 n2, surviving_count l t1 w = Some n1 → surviving_count l t2 w = Some n2 →
            n2 ≤ n1) ∧
  (length (boxes p) = length (scores p) → length (labels p) = length (scores p) →
   ∃ n1 n2, surviving_count l t1 w = Some n1 ∧ surviving_count l t2 w = Some n2 ∧
            n2 ≤ n1).
Proof.
  intros Hl Hle. split.
  - intros n1 n2 H1 H2.
    apply (surviving_count_Some _ _ _ _ _ Hl) in H1 as ->.
    apply (surviving_count_Some _ _ _ _ _ Hl) in H2 as ->.
    by apply count_true_gt_mono.
  - intros Hb Hk.
    destruct (filter_content_well_formed p t1 Hb Hk) as [p1 E1].
    destruct (filter_content_well_formed p t2 Hb Hk) as [p2 E2].
    eexists _, _. split; [by eapply surviving_count_ok|].
    split; [by eapply surviving_count_ok|]. by apply count_true_gt_mono.
Qed.

(** C8.  Every detection record [predict] returns has as many rows of class
    scores and as many objectness scores as it has boxes; and when
    suppression and filtering leave no box of any raw detection, [predict]
    returns, without raising, one record per image with [N = 0]. *)
Theorem predict_records_aligned
    (nms : list Box → list Q → Q → list nat)
    (self : PytorchFasterRCNNWrapper) (x : list Image) (w : world) :
  (∀ recs, fst (predict nms self x w) = Ok recs →
     Forall (λ r, length (bounding_boxes r) = length (class_scores r) ∧
                  length (class_scores r) = length (objectness_scores r)) recs) ∧
  (Forall (λ p, ∃ p', survivors nms p = Ok p' ∧ boxes p' = []) (_model self x) →
   ∃ recs, fst (predict nms self x w) = Ok recs ∧
           length recs = length (_model self x) ∧
           Forall (λ r, r = mkDetectionRecord [] [] []) recs).
Proof.
  rewrite predict_result. split.
  - intros recs H. apply adapt_all_Forall2 in H.
    eapply Forall2_Forall_r; [exact H|]. apply Forall_true.
    intros p r (p' & Hs & ->)%adapt_inv.
    apply survivors_lengths in Hs as [Hb Hl].
    cbn [record_of bounding_boxes class_scores objectness_scores].
    rewrite expand_class_scores_length, length_replicate by done. done.
  - generalize (_model self x). intros ps Hps.
    induction Hps as [|p ps (p' & Hs & Hb) _ (recs & Hrecs & Hlen & Hall)].
    + exists []. by repeat split.
    + exists (mkDetectionRecord [] [] [] :: recs). split; [|split].
      * cbn [adapt_all]. unfold adapt. rewrite Hs, result_bind_ok, result_bind_ok.
        rewrite Hrecs, result_bind_ok. f_equal. f_equal.
        pose proof (survivors_lengths _ _ _ Hs) as [Hbs Hls].
        rewrite Hb in Hbs. simpl in Hbs.
        destruct p' as [b s l]. cbn in *. subst b.
        destruct s; [|done]. destruct l; [|done]. reflexivity.
      * simpl. by rewrite Hlen.
      * by constructor.
Qed.

(** C9.  Two runs of [predict] on the same input with the same
    (deterministic) detector return equal lists of detection records, also
    when the second run starts from the world the first one left; the first
    run creates and mutates dictionaries but nothing the second one reads. *)
Theorem predict_twice_same_records
    (nms : list Box → list Q → Q → list nat)
    (self : PytorchFasterRCNNWrapper) (x : list Image) (w : world) :
  fst (predict nms self x (snd (predict nms self x w))) = fst (predict nms self x w) ∧
  ∀ w', fst (predict nms self x w') = fst (predict nms self x w).
Proof.
  split; [|intros w']; by rewrite !predict_result.
Qed.

(** ** Instances *)

(** The expanded row of the single detection of [example_raw], class 3 with
    confidence 0.9 among five classes. *)
Lemma expanded_row_witness :
  2 ≤ 5 ∧ 3 < 5 ∧
  survivors greedy_nms example_raw = Ok example_raw ∧
  ∃ rec row,
    [record_of 5 example_raw; record_of 5 example_raw] !! 0 = Some rec ∧
    class_scores rec !! 0 = Some row ∧
    row !! 3 = Some 0.9%Q ∧
    (∀ j, j < 5 → j ≠ 3 →
          row !! j = Some ((1 - 0.9) / (inject_Z (Z.of_nat 5) - 1))%Q) ∧
    (Qsum row == 1)%Q.
Proof.
  split; [lia|]. split; [lia|]. split; [reflexivity|].
  apply (expanded_row_of_surviving_detection greedy_nms
           (mkWrapper (constant_detector example_raw) 5)
           [example_image; example_image] empty_world
           [record_of 5 example_raw; record_of 5 example_raw] 0
           example_raw example_raw 0 3 0.9%Q);
    [simpl; lia|simpl; lia|vm_compute; reflexivity|reflexivity|reflexivity
    |reflexivity|reflexivity].
Defined.

(** With five classes the label of a detection of confidence 0.9 is its
    predicted class. *)
Lemma label_is_predicted_class_witness :
  2 ≤ 5 ∧ 3 < 5 ∧ 5 ≤ 5 ∧ (0.2 < 0.9)%Q ∧ argmax (expand_row 0.9%Q 3 5) = Ok 3.
Proof.
  split; [lia|]. split; [lia|]. split; [lia|]. split; [reflexivity|].
  apply (label_is_predicted_class 0.9%Q 3 5); [lia|lia|lia|reflexivity].
Defined.

(** C3 as stated fails: with two classes, a detection of class 1 and
    confidence 0.3 survives suppression and filtering, its expanded row is
    [[0.7; 0.3]], and the label read back from it is 0, not 1. *)
Lemma label_differs_from_predicted_class :
  2 ≤ 2 ∧ 1 < 2 ∧
  survivors greedy_nms low_confidence_raw = Ok low_confidence_raw ∧
  scores low_confidence_raw !! 0 = Some 0.3%Q ∧
  labels low_confidence_raw !! 0 = Some 1 ∧
  ∃ rec row, adapt greedy_nms 2 low_confidence_raw = Ok rec ∧
             class_scores rec !! 0 = Some row ∧
             argmax row = Ok 0 ∧ argmax row ≠ Ok 1.
Proof.
  split; [lia|]. split; [lia|]. split; [reflexivity|]. split; [reflexivity|].
  split; [reflexivity|].
  eexists _, _. split; [reflexivity|]. split; [reflexivity|]. split; [reflexivity|].
  discriminate.
Qed.

(** Of the three boxes of [three_raw], three pass the threshold 0.2 and one
    passes 0.85. *)
Lemma raising_threshold_witness :
  mkWorld {[0 := three_raw]} ∅ = mkWorld {[0 := three_raw]} ∅ ∧
  (0.2 <= 0.85)%Q ∧
  ∃ n1 n2, surviving_count 0 0.2%Q (mkWorld {[0 := three_raw]} ∅) = Some n1 ∧
           surviving_count 0 0.85%Q (mkWorld {[0 := three_raw]} ∅) = Some n2 ∧
           n2 ≤ n1.
Proof.
  split; [reflexivity|]. split; [vm_compute; discriminate|].
  apply (raising_threshold_never_adds_boxes
           (mkWorld {[0 := three_raw]} ∅) 0 three_raw 0.2%Q 0.85%Q);
    [reflexivity|vm_compute; discriminate|reflexivity|reflexivity].
Defined.

(** A detector that only reports a box of confidence 0.1: [predict] returns
    two records without boxes. *)
Lemma predict_records_aligned_witness :
  ∃ recs, fst (predict greedy_nms (mkWrapper (constant_detector noise_raw) 5)
                 [example_image; example_image] empty_world) = Ok recs ∧
          length recs = 2 ∧
          Forall (λ r, r = mkDetectionRecord [] [] []) recs.
Proof.
  apply (predict_records_aligned greedy_nms (mkWrapper (constant_detector noise_raw) 5)
           [example_image; example_image] empty_world).
  repeat constructor; exists (mkPrediction [] [] []); split; reflexivity.
Defined.

(* ===================================================================== *)
(** * The orchestrator: loops and presentation *)
(* ===================================================================== *)

Lemma for_loop_ext {A S} (body body' : A → S → M S) (l : list A) (s : S) (w : world) :
  (∀ a s w, body a s w = body' a s w) →
  for_loop body l s w = for_loop body' l s w.
Proof.
  intros Hext. revert s w. induction l as [|a l IH]; intros s w; [done|].
  cbn [for_loop]. rewrite !bind_run, Hext.
  destruct (body' a s w) as [[s'|e] w']; [apply IH|done].
Qed.

Lemma bind_lift_run {A B} (r : result A) (f : A → M B) (w : world) :
  (lift r ≫= f) w =
  match r with
  | Ok a => f a w
  | Raise e => (Raise e, w)
  end.
Proof. by destruct r. Qed.

Lemma for_loop_invariant {A S} (body : A → S → M S)
    (I : S → world → Prop) (P : world → Prop) (l : list A) (s : S) (w : world) :
  (∀ a s w, a ∈ l → I s w →
     match body a s w with
     | (Ok s', w') => I s' w'
     | (Raise _, w') => P w'
     end) →
  I s w →
  match for_loop body l s w with
  | (Ok s', w') => I s' w'
  | (Raise _, w') => P w'
  end.
Proof.
  revert s w. induction l as [|a l IH]; intros s w Hbody HI; [done|].
  cbn [for_loop]. rewrite bind_run.
  pose proof (Hbody a s w (list_elem_of_here _ _) HI) as Ha.
  destruct (body a s w) as [[s'|e] w']; [|done].
  apply IH; [|done]. intros a' s0 w0 Hin. apply Hbody. by constructor.
Qed.

Lemma draw_panel_index (detections detections' : list DetectionRecord)
    (vs : list SaliencyResult) (img : Image) (savename : string)
    (n img_index i : nat) (axis : axes) (w : world) :
  detections !! img_index = detections' !! img_index →
  draw_panel detections vs img savename n img_index i axis w
  = draw_panel detections' vs img savename n img_index i axis w.
Proof. intros H. unfold draw_panel. by rewrite H. Qed.

Lemma axes_getitem_elem (axis : axes) (i : nat) (ax : Axes) :
  axes_getitem axis i = Ok ax → ax ∈ axes_list axis.
Proof.
  destruct axis as [a|l]; [done|]. simpl.
  destruct (l !! i) eqn:E; [|done]. intros [= <-]. by eapply list_elem_of_lookup_2.
Qed.

Lemma axes_setitem_clean (axis axis' : axes) (i : nat) (a : Axes) :
  figure_clean axis →
  (∀ t img, ax_heat_map a = Some (t, img) → any (isnan t) = false) →
  axes_setitem axis i a = Ok axis' → figure_clean axis'.
Proof.
  intros Hc Ha. destruct axis as [a0|l]; [done|]. simpl.
  case_decide; [|done]. intros [= <-] a' t img Hin Hh. simpl in Hin.
  apply list_elem_of_lookup in Hin as [j Hj].
  destruct (decide (i = j)) as [->|Hne].
  - rewrite list_lookup_insert_eq in Hj by done. injection Hj as <-. by eapply Ha.
  - rewrite list_lookup_insert_ne in Hj by done.
    eapply Hc; [|done]. simpl. by eapply list_elem_of_lookup_2.
Qed.

Lemma lift_bind_post {A B} (Q : result B * world → Prop) (r : result A)
    (f : A → M B) (w : world) :
  (∀ e, r = Raise e → Q (Raise e, w)) → (∀ a, r = Ok a → Q (f a w)) →
  Q ((lift r ≫= f) w).
Proof. intros He Ha. destruct r as [a|e]; [by apply Ha|by apply He]. Qed.

Lemma save_post (w0 w : world) (savename : string) (axis : axes) :
  figure_clean axis → saved_figures_clean w0 w →
  panel_post w0 savename
    ((save savename (FigureFile axis) ≫= λ _, mret axis) w).
Proof.
  intros Hc Hw. rewrite bind_run. unfold save, panel_post. cbv beta iota.
  unfold mret, M_ret. cbn [files heap].
  split; [done|]. split; [|by rewrite lookup_insert_eq].
  intros path fig. cbn [files]. destruct (decide (savename = path)) as [->|Hne].
  - rewrite lookup_insert_eq. intros [= <-]. by right.
  - rewrite lookup_insert_ne by done. apply Hw.
Qed.

Ltac lstep :=
  apply lift_bind_post; [intros ? _; assumption|intros ? ?].

Lemma draw_panel_clean (detections : list DetectionRecord)
    (vs : list SaliencyResult) (img : Image) (savename : string)
    (n img_index i : nat) (axis : axes) (w0 w : world) :
  Forall valid vs → figure_clean axis → saved_figures_clean w0 w →
  panel_post w0 savename
    (draw_panel detections vs img savename n img_index i axis w).
Proof.
  intros Hvs Hc Hw. unfold draw_panel.
  lstep. lstep. apply lift_bind_post; [intros ? _; assumption|intros axis1 E1].
  assert (Hc1 : figure_clean axis1).
  { eapply axes_setitem_clean; [exact Hc| |exact E1].
    simpl. intros t img' [= <- <-].
    rewrite Forall_forall in Hvs. apply Hvs.
    destruct (vs !! i) eqn:Ei; [|done]. injection H as <-.
    by eapply list_elem_of_lookup_2. }
  lstep. apply lift_bind_post; [intros ? _; assumption|intros box Ebox].
  lstep. lstep. apply lift_bind_post; [intros ? _; assumption|intros label Elabel].
  assert (Hplot : ∀ ax, ax ∈ axes_list axis1 →
            ∀ t img', ax_heat_map (plot_img_bbox ax box label "r") = Some (t, img') →
                      any (isnan t) = false).
  { intros ax Hin t img' Hh. by eapply Hc1. }
  rewrite bind_run.
  destruct (decide (1 < n)).
  - rewrite bind_lift_run.
    destruct (axes_getitem axis1 i) as [ax|] eqn:Eax; [|assumption].
    unfold lift at 1.
    destruct (axes_setitem axis1 i _) as [axis'|] eqn:E8; [|assumption].
    apply save_post; [|done].
    eapply axes_setitem_clean; [exact Hc1| |exact E8].
    apply Hplot. by eapply axes_getitem_elem.
  - destruct axis1 as [ax|l]; [|exact Hw].
    unfold mret at 1, M_ret.
    apply save_post; [|done].
    intros a' t img' Hin Hh. simpl in Hin. apply list_elem_of_singleton in Hin as ->.
    eapply Hplot; [|done]. simpl. by apply list_elem_of_singleton.
Qed.

Lemma subplots_clean (n : nat) : figure_clean (subplots n).
Proof.
  unfold subplots. intros a t img Hin Hh. case_decide; simpl in Hin.
  - apply list_elem_of_singleton in Hin as ->. done.
  - apply elem_of_replicate in Hin as [-> _]. done.
Qed.

Lemma saved_figures_clean_refl (w w' : world) :
  files w' = files w → saved_figures_clean w w'.
Proof. intros H path fig Hf. left. by rewrite <- H. Qed.

Lemma saved_figures_clean_files (w0 w1 w' : world) :
  files w1 = files w0 → saved_figures_clean w1 w' → saved_figures_clean w0 w'.
Proof. intros H Hc path fig Hf. rewrite <- H. by apply Hc. Qed.

Section OrchestratorRuns.

Variable nms : list Box → list Q → Q → list nat.
Variable Image_open : string → Image.
Variable pretrained : Detector.
Variable load_user_model : string → nat → Detector.

Lemma present_saliency_no_valid (detections : list DetectionRecord)
    (sal : list (list SaliencyResult)) (s : list SaliencyResult)
    (img : Image) (savename : string) (w : world) :
  sal !! 0 = Some s → filter valid s = [] →
  present_saliency Image_open detections sal img savename w
  = (Ok None,
     mkWorld (heap w)
       (<[savename := ImageFile (Image_open "images/notfound.png")]> (files w))).
Proof.
  intros Hs Hv. unfold present_saliency. rewrite bind_lift_run, Hs. cbn [of_option].
  rewrite Hv. reflexivity.
Qed.

Lemma present_saliency_clean (detections : list DetectionRecord)
    (sal : list (list SaliencyResult)) (img : Image) (savename : string) (w : world) :
  saved_figures_clean w (snd (present_saliency Image_open detections sal img savename w)) ∧
  ∀ fig path,
    fst (present_saliency Image_open detections sal img savename w) = Ok (Some (fig, path)) →
    figure_clean fig ∧ path = savename ∧
    files (snd (present_saliency Image_open detections sal img savename w)) !! savename
    = Some (FigureFile fig).
Proof.
  destruct (sal !! 0) as [s|] eqn:Hs.
  2:{ unfold present_saliency. rewrite bind_lift_run, Hs. cbn [of_option].
      split; [by apply saved_figures_clean_refl|done]. }
  destruct (decide (filter valid s = [])) as [Hnil|Hn].
  { rewrite (present_saliency_no_valid _ _ _ _ _ _ Hs Hnil). split; [|done].
    intros path fig. cbn [snd files].
    destruct (decide (savename = path)) as [->|Hne].
    - by rewrite lookup_insert_eq.
    - rewrite lookup_insert_ne by done. by left. }
  unfold present_saliency. rewrite bind_lift_run, Hs. cbn [of_option].
  set (vs := filter valid s) in *.
  rewrite decide_False by (by intros ?%nil_length_inv).
  assert (Hvs : Forall valid vs) by (apply Forall_forall; intros r [? _]%list_elem_of_filter; done).
  destruct (length vs) as [|n] eqn:Hlen; [by apply nil_length_inv in Hlen|].
  cbn [seq for_loop]. rewrite bind_run.
  set (body := draw_panel detections vs img savename (S n) 0).
  rewrite (bind_run (body 0 _)).
  pose proof (draw_panel_clean detections vs img savename (S n) 0 0 (subplots (S n))
                w w Hvs (subplots_clean _) (saved_figures_clean_refl w w eq_refl)) as H0.
  fold body in H0. unfold panel_post in H0.
  destruct (body 0 (subplots (S n)) w) as [[axis1|e] w1]; [|by split].
  pose proof (for_loop_invariant body
                (λ axis w', panel_post w savename (Ok axis, w'))
                (saved_figures_clean w) (seq 1 n) axis1 w1) as Hloop.
  cbv beta in Hloop. unfold panel_post in Hloop.
  destruct (for_loop body (seq 1 n) axis1 w1) as [[axis'|e] w'].
  - destruct Hloop as (Hc & Hw & Hf); [|done|].
    + intros i axis0 w0 _ (Hc0 & Hw0 & _).
      apply (draw_panel_clean detections vs img savename (S n) 0 i axis0 w w0); done.
    + cbn. split; [done|]. intros fig path [= <- <-]. done.
  - cbn. split; [|done]. apply Hloop; [|done].
    intros i axis0 w0 _ (Hc0 & Hw0 & _).
    apply (draw_panel_clean detections vs img savename (S n) 0 i axis0 w w0); done.
Qed.

Lemma present_saliency_index (detections detections' : list DetectionRecord)
    (sal sal' : list (list SaliencyResult)) (img : Image) (savename : string) (w : world) :
  detections !! 0 = detections' !! 0 → sal !! 0 = sal' !! 0 →
  present_saliency Image_open detections sal img savename w
  = present_saliency Image_open detections' sal' img savename w.
Proof.
  intros Hd Hs. unfold present_saliency. rewrite !bind_lift_run, Hs.
  destruct (sal' !! 0) as [s|]; cbn [of_option]; [|done].
  case_decide; [done|]. rewrite !bind_run.
  erewrite for_loop_ext; [reflexivity|].
  intros i axis0 w0. by apply draw_panel_index.
Qed.

Section Estimator.

Variable DRISE_saliency :
  PytorchFasterRCNNWrapper → list Image → list DetectionRecord → nat → nat * nat →
  list (list SaliencyResult).

(** The driver is [predict] followed by the presentation of what the
    estimator returned. *)
Lemma get_drise_saliency_map_run
    (imagelocation : string) (modellocation : option string) (numclasses : nat)
    (savename : string) (nummasks : nat) (maskres : nat * nat) (w : world) :
  get_drise_saliency_map nms Image_open pretrained load_user_model DRISE_saliency
    imagelocation modellocation numclasses savename nummasks maskres w
  = let test_image := Image_open imagelocation in
    let wr := explainable_wrapper_of pretrained load_user_model modellocation numclasses in
    match predict nms wr (replicate 2 test_image) w with
    | (Ok detections, w1) =>
        present_saliency Image_open detections
          (DRISE_saliency wr (replicate 2 test_image) detections nummasks maskres)
          test_image savename w1
    | (Raise e, w1) => (Raise e, w1)
    end.
Proof. reflexivity. Qed.

End Estimator.

End OrchestratorRuns.

(* ===================================================================== *)
(** * The orchestrator: stated properties *)
(* ===================================================================== *)

Section OrchestratorProperties.

Variable nms : list Box → list Q → Q → list nat.
Variable Image_open : string → Image.
Variable pretrained : Detector.
Variable load_user_model : string → nat → Detector.

(** C4.  In every run of the orchestrator, a saliency result whose
    ['detection'] tensor holds a NaN is not in the list handed to the
    rendering loop; no figure file the run writes and no figure it returns
    shows a heat map with a NaN, and the figure returned is the one saved
    at [savename]. *)
Theorem nan_results_never_presented
    (DRISE_saliency : PytorchFasterRCNNWrapper → list Image → list DetectionRecord →
                      nat → nat * nat → list (list SaliencyResult))
    (imagelocation : string) (modellocation : option string) (numclasses : nat)
    (savename : string) (nummasks : nat) (maskres : nat * nat) (w : world) :
  let out := get_drise_saliency_map nms Image_open pretrained load_user_model
               DRISE_saliency imagelocation modellocation numclasses savename
               nummasks maskres w in
  (∀ (s : list SaliencyResult) r, r ∈ s → any (isnan (detection r)) = true →
                                r ∉ filter valid s) ∧
  saved_figures_clean w (snd out) ∧
  (∀ fig path, fst out = Ok (Some (fig, path)) →
     figure_clean fig ∧ files (snd out) !! savename = Some (FigureFile fig)).
Proof.
  intros out. split.
  { intros s r _ Hnan [Hv _]%list_elem_of_filter. unfold valid in Hv. congruence. }
  subst out. rewrite get_drise_saliency_map_run. cbv zeta.
  set (wr := explainable_wrapper_of _ _ _ _).
  set (x := replicate 2 _).
  pose proof (keeps_files_predict nms wr x w) as Hfiles.
  destruct (predict nms wr x w) as [[detections|e] w1]; cbn [snd] in Hfiles.
  - match goal with |- context [present_saliency _ _ ?sal ?img _ _] =>
      destruct (present_saliency_clean Image_open detections sal img savename w1)
        as [Hsaved Hfig] end.
    split; [by eapply saved_figures_clean_files|].
    intros fig path Hout. by destruct (Hfig fig path Hout) as (? & _ & ?).
  - split; [by apply saved_figures_clean_refl|done].
Qed.

(** C5.  When no saliency result of image 0 passes the NaN filter (in
    particular when the estimator had no detection to explain), the
    orchestrator returns the pair [(None, None)], here [None], and the file
    at [savename] is the placeholder image [images/notfound.png], not a
    figure; nothing else is written. *)
Theorem no_valid_result_returns_sentinel
    (DRISE_saliency : PytorchFasterRCNNWrapper → list Image → list DetectionRecord →
                      nat → nat * nat → list (list SaliencyResult))
    (imagelocation : string) (modellocation : option string) (numclasses : nat)
    (savename : string) (nummasks : nat) (maskres : nat * nat) (w w1 : world)
    (detections : list DetectionRecord) (s : list SaliencyResult) :
  let test_image := Image_open imagelocation in
  let wr := explainable_wrapper_of pretrained load_user_model modellocation numclasses in
  predict nms wr (replicate 2 test_image) w = (Ok detections, w1) →
  DRISE_saliency wr (replicate 2 test_image) detections nummasks maskres !! 0 = Some s →
  filter valid s = [] →
  get_drise_saliency_map nms Image_open pretrained load_user_model DRISE_saliency
    imagelocation modellocation numclasses savename nummasks maskres w
  = (Ok None,
     mkWorld (heap w1)
       (<[savename := ImageFile (Image_open "images/notfound.png")]> (files w))).
Proof.
  intros test_image wr Hp Hs Hv. rewrite get_drise_saliency_map_run. cbv zeta.
  fold test_image. fold wr. rewrite Hp.
  rewrite (present_saliency_no_valid _ _ _ _ _ _ _ Hs Hv).
  pose proof (keeps_files_predict nms wr (replicate 2 test_image) w) as Hfiles.
  rewrite Hp in Hfiles. cbn [snd] in Hfiles. by rewrite Hfiles.
Qed.

(** C10.  What is drawn, returned and saved depends on the detection
    records and on the estimator's results only through their entry for
    batch index 0: lists that agree there give the same presentation, and
    two estimators that agree there give the same run. *)
Theorem rendering_depends_on_first_image
    (E1 E2 : PytorchFasterRCNNWrapper → list Image → list DetectionRecord →
             nat → nat * nat → list (list SaliencyResult))
    (detections detections' : list DetectionRecord)
    (sal sal' : list (list SaliencyResult)) (img : Image)
    (imagelocation : string) (modellocation : option string) (numclasses : nat)
    (savename : string) (nummasks : nat) (maskres : nat * nat) (w : world) :
  detections !! 0 = detections' !! 0 → sal !! 0 = sal' !! 0 →
  (∀ wr x d n r, E1 wr x d n r !! 0 = E2 wr x d n r !! 0) →
  present_saliency Image_open detections sal img savename w
  = present_saliency Image_open detections' sal' img savename w ∧
  get_drise_saliency_map nms Image_open pretrained load_user_model E1
    imagelocation modellocation numclasses savename nummasks maskres w
  = get_drise_saliency_map nms Image_open pretrained load_user_model E2
      imagelocation modellocation numclasses savename nummasks maskres w.
Proof.
  intros Hd Hs HE. split; [by apply present_saliency_index|].
  rewrite !get_drise_saliency_map_run. cbv zeta.
  destruct (predict _ _ _ _) as [[d|e] w1]; [|done].
  by apply present_saliency_index.
Qed.

End OrchestratorProperties.

(** C2.  On an image with three detections (classes 1, 2, 3) whose first
    saliency map holds a NaN, the two panels show the maps estimated for
    detections 1 and 2 with the boxes and labels of detections 0 and 1: the
    loop indexes the unfiltered detection record with the position in the
    filtered list. *)
Theorem nan_filter_misaligns_panels :
  fst (predict greedy_nms (mkWrapper (constant_detector three_raw) 5)
         [example_image; example_image] empty_world)
  = Ok [record_of 5 three_raw; record_of 5 three_raw] ∧
  argmax <$> class_scores (record_of 5 three_raw) = [Ok 1; Ok 2; Ok 3] ∧
  fst example_run
  = Ok (Some
      (AxesArray
         [plot_img_bbox
            (visualize_image_attr (detection map_1) example_image 0 empty_axes)
            box_0 1 "r";
          plot_img_bbox
            (visualize_image_attr (detection map_2) example_image 1 empty_axes)
            box_1 2 "r"],
       "res/outputmaps.jpg")).
Proof. split; [|split]; vm_compute; reflexivity. Qed.

(** ** Instances *)

(** The run [example_run] returns a figure without NaN and saves it. *)
Lemma nan_results_never_presented_witness :
  ∃ fig, fst example_run = Ok (Some (fig, "res/outputmaps.jpg")) ∧
         figure_clean fig ∧
         files (snd example_run) !! "res/outputmaps.jpg" = Some (FigureFile fig).
Proof.
  eexists. split; [vm_compute; reflexivity|].
  apply (nan_results_never_presented greedy_nms example_open
           (constant_detector three_raw) (λ _ _, constant_detector three_raw)
           (constant_estimator [[nan_map; map_1; map_2]; [nan_map; map_1; map_2]])
           "images/cartons.jpg" (Some "model.pt") 5 "res/outputmaps.jpg" 25 (4, 4)
           empty_world) with (path := "res/outputmaps.jpg").
  vm_compute; reflexivity.
Defined.

(** With the pretrained detector reporting only a box of confidence 0.1, no
    detection survives, the estimator has nothing to explain, and the run
    ends with the sentinel and the placeholder. *)
Lemma no_valid_result_witness :
  get_drise_saliency_map greedy_nms example_open
    (constant_detector noise_raw) (λ _ _, constant_detector three_raw)
    (constant_estimator [[]; []])
    "images/cartons.jpg" None 5 "res/outputmaps.jpg" 25 (4, 4) empty_world
  = (Ok None,
     mkWorld
       (heap (snd (predict greedy_nms (mkWrapper (constant_detector noise_raw) 91)
                     [example_image; example_image] empty_world)))
       (<["res/outputmaps.jpg" := ImageFile notfound_image]> ∅)).
Proof.
  apply (no_valid_result_returns_sentinel greedy_nms example_open
           (constant_detector noise_raw) (λ _ _, constant_detector three_raw)
           (constant_estimator [[]; []])
           "images/cartons.jpg" None 5 "res/outputmaps.jpg" 25 (4, 4) empty_world
           (snd (predict greedy_nms (mkWrapper (constant_detector noise_raw) 91)
                   [example_image; example_image] empty_world))
           [mkDetectionRecord [] [] []; mkDetectionRecord [] [] []] []);
    [vm_compute; reflexivity|reflexivity|reflexivity].
Defined.

(** Changing the second entry of the detection records and of the
    estimator's results changes nothing. *)
Lemma rendering_depends_on_first_image_witness :
  present_saliency example_open
    [record_of 5 three_raw; record_of 5 three_raw] [[map_1; map_2]; [nan_map]]
    example_image "res/outputmaps.jpg" empty_world
  = present_saliency example_open
      [record_of 5 three_raw; mkDetectionRecord [] [] []] [[map_1; map_2]; []]
      example_image "res/outputmaps.jpg" empty_world ∧
  get_drise_saliency_map greedy_nms example_open
    (constant_detector three_raw) (λ _ _, constant_detector three_raw)
    (constant_estimator [[map_1; map_2]; [nan_map]])
    "images/cartons.jpg" None 5 "res/outputmaps.jpg" 25 (4, 4) empty_world
  = get_drise_saliency_map greedy_nms example_open
      (constant_detector three_raw) (λ _ _, constant_detector three_raw)
      (constant_estimator [[map_1; map_2]; []])
      "images/cartons.jpg" None 5 "res/outputmaps.jpg" 25 (4, 4) empty_world.
Proof.
  apply (rendering_depends_on_first_image greedy_nms example_open
           (constant_detector three_raw) (λ _ _, constant_detector three_raw)
           (constant_estimator [[map_1; map_2]; [nan_map]])
           (constant_estimator [[map_1; map_2]; []]));
    [reflexivity|reflexivity|intros; reflexivity].
Defined.

(* ===================================================================== *)
(** * Further properties of the adapter *)
(* ===================================================================== *)

Lemma index_select_lookup {A} (t : list A) (keep : list nat) (r : list A) (i j : nat) :
  index_select t keep = Ok r → keep !! i = Some j → r !! i = t !! j.
Proof.
  revert r i. induction keep as [|k keep IH]; intros r i; simpl; [done|].
  destruct (t !! k) as [a|] eqn:Ek; simpl; [|done].
  destruct (index_select t keep) as [r'|] eqn:E; simpl; [|done].
  intros [= <-]. destruct i as [|i]; simpl.
  - by intros [= <-].
  - by apply IH.
Qed.

Lemma index_select_out_of_range {A} (t : list A) (keep : list nat) :
  ¬ Forall (λ j, j < length t) keep → index_select t keep = Raise IndexError.
Proof.
  induction keep as [|k keep IH]; intros Hnot; simpl.
  - destruct Hnot. constructor.
  - destruct (t !! k) as [a|] eqn:Ek; simpl; [|done].
    rewrite IH; [done|]. intros Hall. apply Hnot. constructor; [|done].
    by eapply lookup_lt_Some.
Qed.


Lemma mask_select_mismatch {A} (t : list A) (keep : list bool) :
  length keep ≠ length t → mask_select t keep = Raise IndexError.
Proof.
  revert keep. induction t as [|a t IH]; intros [|b keep]; simpl; try done.
  intros Hne. rewrite IH by congruence. done.
Qed.

Lemma mask_select_sublist {A} (t : list A) (keep : list bool) (r : list A) :
  mask_select t keep = Ok r → r `sublist_of` t.
Proof.
  revert keep r. induction t as [|a t IH]; intros [|b keep] r; simpl; try done.
  - intros [= <-]. constructor.
  - destruct (mask_select t keep) as [r'|] eqn:E; simpl; [|done].
    intros [= <-]. specialize (IH _ _ E).
    destruct b; by constructor.
Qed.

Lemma index_select_elem {A} (t : list A) (keep : list nat) (r : list A) (a : A) :
  index_select t keep = Ok r → a ∈ r → a ∈ t.
Proof.
  revert r. induction keep as [|k keep IH]; intros r; simpl.
  - intros [= <-]. by intros ?%elem_of_nil.
  - destruct (t !! k) as [a'|] eqn:Ek; simpl; [|done].
    destruct (index_select t keep) as [r'|] eqn:E; simpl; [|done].
    intros [= <-] [->|Hin]%elem_of_cons.
    + by eapply list_elem_of_lookup_2.
    + by eapply IH.
Qed.

(** Masks over three aligned tensors select aligned triples. *)
Lemma mask_select_triples (b b' : list Box) (s s' : list Q) (k k' : list nat) (t : Q) :
  mask_select b (gt s t) = Ok b' →
  mask_select s (gt s t) = Ok s' →
  mask_select k (gt s t) = Ok k' →
  zip b' (zip s' k') = filter (λ x, Qltb t x.2.1 = true) (zip b (zip s k)).
Proof.
  revert b b' s' k k'. induction s as [|x s IH]; intros b b' s' k k'.
  - destruct b, k; simpl; intros H1 H2 H3; simplify_eq; done.
  - destruct b as [|bx b], k as [|kx k]; simpl; try done.
    destruct (mask_select b (gt s t)) as [b1|] eqn:Eb; simpl; [|done].
    destruct (mask_select s (gt s t)) as [s1|] eqn:Es; simpl; [|done].
    destruct (mask_select k (gt s t)) as [k1|] eqn:Ek; simpl; [|done].
    intros [= <-] [= <-] [= <-]. specialize (IH _ _ _ _ _ Eb eq_refl Ek).
    destruct (Qltb t x) eqn:E.
    + rewrite filter_cons_True by done. simpl. by rewrite IH.
    + rewrite filter_cons_False by (simpl; congruence). done.
Qed.

Lemma mask_select_gt_Forall (s s' : list Q) (t : Q) :
  mask_select s (gt s t) = Ok s' → Forall (λ x, (t < x)%Q) s'.
Proof.
  revert s'. induction s as [|x s IH]; intros s'; simpl.
  - intros [= <-]. constructor.
  - destruct (mask_select s (gt s t)) as [s1|] eqn:Es; simpl; [|done].
    intros [= <-]. specialize (IH _ eq_refl).
    destruct (Qltb t x) eqn:E; [|done]. constructor; [|done]. by apply Qltb_lt.
Qed.

Lemma mask_select_twice {A} (xs xs1 : list A) (s s1 : list Q) (t1 t2 : Q) :
  (t1 <= t2)%Q →
  mask_select xs (gt s t1) = Ok xs1 → mask_select s (gt s t1) = Ok s1 →
  mask_select xs1 (gt s1 t2) = mask_select xs (gt s t2).
Proof.
  intros Hle. revert xs xs1 s1. induction s as [|x s IH]; intros xs xs1 s1.
  - destruct xs; simpl; [|done]. by intros [= <-] [= <-].
  - destruct xs as [|a xs]; simpl; [done|].
    destruct (mask_select xs (gt s t1)) as [xs'|] eqn:Ex; simpl; [|done].
    destruct (mask_select s (gt s t1)) as [s'|] eqn:Es; simpl; [|done].
    intros [= <-] [= <-]. specialize (IH _ _ _ Ex eq_refl).
    destruct (Qltb t1 x) eqn:E1; simpl.
    + by rewrite IH.
    + assert (Qltb t2 x = false) as ->.
      { apply Qltb_ge. apply Qltb_ge in E1. lra. }
      rewrite IH. by destruct (mask_select xs (gt s t2)).
Qed.

Lemma mask_select_twice_rev {A} (xs xs2 : list A) (s s2 : list Q) (t1 t2 : Q) :
  (t1 <= t2)%Q →
  mask_select xs (gt s t2) = Ok xs2 → mask_select s (gt s t2) = Ok s2 →
  mask_select xs2 (gt s2 t1) = Ok xs2.
Proof.
  intros Hle. revert xs xs2 s2. induction s as [|x s IH]; intros xs xs2 s2.
  - destruct xs; simpl; [|done]. by intros [= <-] [= <-].
  - destruct xs as [|a xs]; simpl; [done|].
    destruct (mask_select xs (gt s t2)) as [xs'|] eqn:Ex; simpl; [|done].
    destruct (mask_select s (gt s t2)) as [s'|] eqn:Es; simpl; [|done].
    intros [= <-] [= <-]. specialize (IH _ _ _ Ex eq_refl).
    destruct (Qltb t2 x) eqn:E2; simpl; [|done].
    assert (Qltb t1 x = true) as ->.
    { apply Qltb_lt. apply Qltb_lt in E2. lra. }
    by rewrite IH.
Qed.

(** ** Dictionaries an action may change *)

Lemma touches_only_ret {A} (ls : list loc) (a : A) : touches_only ls (mret a).
Proof. done. Qed.

Lemma touches_only_lift {A} (ls : list loc) (r : result A) : touches_only ls (lift r).
Proof. done. Qed.

Lemma touches_only_bind {A B} (ls : list loc) (m : M A) (f : A → M B) :
  touches_only ls m → (∀ a, touches_only ls (f a)) → touches_only ls (m ≫= f).
Proof.
  intros Hm Hf w l' Hl'. rewrite bind_run. specialize (Hm w l' Hl').
  destruct (m w) as [[a|e] w1]; simpl in *; [|done].
  by rewrite Hf.
Qed.

Lemma touches_only_getitem {V} (ls : list loc) (l : loc) (key : Prediction → V) :
  touches_only ls (getitem l key).
Proof.
  intros w l' _. unfold getitem. rewrite bind_run. unfold load.
  by destruct (heap w !! l).
Qed.

Lemma touches_only_setitem (ls : list loc) (l : loc) (set : Prediction → Prediction) :
  l ∈ ls → touches_only ls (setitem l set).
Proof.
  intros Hl w l' Hl'. unfold setitem. destruct (heap w !! l); [|done].
  cbn [snd heap]. rewrite lookup_insert_ne; [done|]. by intros ->.
Qed.

Lemma touches_only_weaken {A} (ls ls' : list loc) (m : M A) :
  ls ⊆ ls' → touches_only ls m → touches_only ls' m.
Proof. intros Hsub Hm w l' Hl'. apply Hm. intros Hin. apply Hl'. by apply Hsub. Qed.

Lemma touches_only_bind_val {A B} (ls : list loc) (m : M A) (f : A → M B)
    (P : A → Prop) :
  touches_only ls m → (∀ w a w', m w = (Ok a, w') → P a) →
  (∀ a, P a → touches_only ls (f a)) → touches_only ls (m ≫= f).
Proof.
  intros Hm HP Hf w l' Hl'. rewrite bind_run. specialize (Hm w l' Hl').
  destruct (m w) as [[a|e] w1] eqn:E; simpl in *; [|done].
  rewrite Hf; [done| |done]. by eapply HP.
Qed.

Ltac touches_only :=
  repeat first [ progress cbv zeta
               | apply touches_only_ret
               | apply touches_only_lift
               | apply touches_only_getitem
               | apply touches_only_setitem; apply list_elem_of_here
               | apply touches_only_bind; [|intros ?] ].

Section AdapterExtras.

Variable nms : list Box → list Q → Q → list nat.

Lemma touches_only_apply_nms (l : loc) (t : Q) : touches_only [l] (apply_nms nms l t).
Proof. unfold apply_nms. touches_only. Qed.

Lemma touches_only_filter_score (l : loc) (t : Q) : touches_only [l] (filter_score l t).
Proof. unfold filter_score. touches_only. Qed.

Lemma apply_nms_returns_loc (l l' : loc) (t : Q) (w w' : world) :
  apply_nms nms l t w = (Ok l', w') → l' = l.
Proof.
  unfold apply_nms. intros H.
  repeat (rewrite bind_run in H;
          match type of H with
          | context [match ?m with (_, _) => _ end] =>
              destruct m as [[?|?] ?]; [|done]
          end).
  unfold mret, M_ret in H. congruence.
Qed.


Lemma apply_nms_inv (w w' : world) (l l' : loc) (p : Prediction) (t : Q) :
  heap w !! l = Some p → apply_nms nms l t w = (Ok l', w') →
  ∃ p', nms_content nms p t = Ok p' ∧ l' = l ∧
        w' = mkWorld (<[l := p']> (heap w)) (files w).
Proof.
  intros Hl Hrun. destruct (nms_content nms p t) as [p'|e] eqn:E.
  - rewrite (apply_nms_ok _ _ _ _ _ _ Hl E) in Hrun. injection Hrun as <- <-. eauto.
  - pose proof (apply_nms_raise _ _ _ _ _ _ Hl E) as Hr. by rewrite Hrun in Hr.
Qed.

Lemma filter_score_inv (w w' : world) (l l' : loc) (p : Prediction) (t : Q) :
  heap w !! l = Some p → filter_score l t w = (Ok l', w') →
  ∃ p', filter_content p t = Ok p' ∧ l' = l ∧
        w' = mkWorld (<[l := p']> (heap w)) (files w).
Proof.
  intros Hl Hrun. destruct (filter_content p t) as [p'|e] eqn:E.
  - rewrite (filter_score_ok _ _ _ _ _ Hl E) in Hrun. injection Hrun as <- <-. eauto.
  - pose proof (filter_score_raise _ _ _ _ _ Hl E) as Hr. by rewrite Hrun in Hr.
Qed.

(** X1.  [apply_nms] gathers boxes, scores and labels with one index tensor:
    after a run that returns, the dictionary returned is the one given, each
    of its fields has as many entries as [keep], and entry [i] of each field
    is entry [keep[i]] of the original, so a box keeps its score and label. *)
Theorem apply_nms_keeps_detections_aligned
    (w w' : world) (l l' : loc) (p : Prediction) (t : Q) :
  heap w !! l = Some p → apply_nms nms l t w = (Ok l', w') →
  l' = l ∧
  ∃ p', heap w' !! l = Some p' ∧
        length (boxes p') = length (nms (boxes p) (scores p) t) ∧
        length (scores p') = length (nms (boxes p) (scores p) t) ∧
        length (labels p') = length (nms (boxes p) (scores p) t) ∧
        ∀ i j, nms (boxes p) (scores p) t !! i = Some j →
               boxes p' !! i = boxes p !! j ∧
               scores p' !! i = scores p !! j ∧
               labels p' !! i = labels p !! j.
Proof.
  intros Hl Hrun.
  destruct (apply_nms_inv _ _ _ _ _ _ Hl Hrun) as (p' & Hc & -> & ->).
  split; [done|]. exists p'. split; [apply lookup_insert_eq|].
  unfold nms_content in Hc.
  destruct (index_select (boxes p) _) as [b|] eqn:Eb; [|done].
  destruct (index_select (scores p) _) as [s|] eqn:Es; [|done].
  destruct (index_select (labels p) _) as [k|] eqn:Ek; [|done].
  injection Hc as <-. cbn [boxes scores labels].
  split; [by eapply index_select_length|].
  split; [by eapply index_select_length|].
  split; [by eapply index_select_length|].
  intros i j Hij. split; [|split]; by eapply index_select_lookup.
Qed.

(** X2.  When [nms] answers with an index beyond the boxes, [apply_nms]
    raises IndexError at the first gather and the dictionary is unchanged. *)
Theorem apply_nms_index_out_of_range (w : world) (l : loc) (p : Prediction) (t : Q) :
  heap w !! l = Some p →
  ¬ Forall (λ j, j < length (boxes p)) (nms (boxes p) (scores p) t) →
  apply_nms nms l t w = (Raise IndexError, w).
Proof.
  intros Hl Hbad. unfold apply_nms. repeat mstep.
  by rewrite (index_select_out_of_range _ _ Hbad).
Qed.

(** X3.  After a run of [filter_score] that returns, the dictionary holds
    exactly the detections whose score exceeds the threshold, in their
    original order, each box still with its score and label. *)
Theorem filter_score_keeps_exactly (w w' : world) (l l' : loc) (p : Prediction) (t : Q) :
  heap w !! l = Some p → filter_score l t w = (Ok l', w') →
  l' = l ∧ files w' = files w ∧
  ∃ p', heap w' !! l = Some p' ∧
        triples p' = filter (λ x, Qltb t x.2.1 = true) (triples p) ∧
        length (boxes p') = length (scores p') ∧
        length (labels p') = length (scores p') ∧
        Forall (λ x, (t < x)%Q) (scores p').
Proof.
  intros Hl Hrun.
  destruct (filter_score_inv _ _ _ _ _ _ Hl Hrun) as (p' & Hc & -> & ->).
  split; [done|]. split; [done|]. exists p'. split; [apply lookup_insert_eq|].
  pose proof (filter_content_count _ _ _ Hc) as (Hb & Hs & Hk).
  unfold filter_content in Hc.
  destruct (mask_select (boxes p) _) as [b|] eqn:Eb; [|done].
  destruct (mask_select (scores p) _) as [s|] eqn:Es; [|done].
  destruct (mask_select (labels p) _) as [k|] eqn:Ek; [|done].
  injection Hc as <-. cbn [boxes scores labels] in *. unfold triples.
  cbn [boxes scores labels].
  split; [by eapply mask_select_triples|].
  split; [congruence|]. split; [congruence|]. by eapply mask_select_gt_Forall.
Qed.

(** X4.  When boxes and scores differ in number, [filter_score] raises
    IndexError on the first mask and the dictionary is unchanged. *)
Theorem filter_score_length_mismatch (w : world) (l : loc) (p : Prediction) (t : Q) :
  heap w !! l = Some p → length (boxes p) ≠ length (scores p) →
  filter_score l t w = (Raise IndexError, w).
Proof.
  intros Hl Hne. unfold filter_score. repeat mstep.
  rewrite mask_select_mismatch; [done|]. rewrite length_gt. congruence.
Qed.

(** X5.  When only the labels are out of step, [filter_score] raises
    IndexError after it has replaced boxes and scores: the dictionary is left
    with filtered boxes and scores and the unfiltered labels. *)
Theorem filter_score_fails_half_way (w : world) (l : loc) (p : Prediction) (t : Q) :
  heap w !! l = Some p →
  length (boxes p) = length (scores p) → length (labels p) ≠ length (scores p) →
  ∃ b s,
    mask_select (boxes p) (gt (scores p) t) = Ok b ∧
    mask_select (scores p) (gt (scores p) t) = Ok s ∧
    filter_score l t w
    = (Raise IndexError,
       mkWorld (<[l := {| boxes := b; scores := s; labels := labels p |}]> (heap w))
         (files w)).
Proof.
  intros Hl Hb Hk.
  pose proof (mask_select_ok (boxes p) (gt (scores p) t)) as Eb.
  pose proof (mask_select_ok (scores p) (gt (scores p) t)) as Es.
  rewrite length_gt in Eb, Es. specialize (Eb (eq_sym Hb)). specialize (Es eq_refl).
  eexists _, _. split; [exact Eb|]. split; [exact Es|].
  unfold filter_score. repeat mstep. rewrite Eb. cbv beta iota.
  repeat mstep. cbn [scores set_boxes]. rewrite Es. cbv beta iota.
  repeat mstep. cbn [labels set_scores set_boxes].
  rewrite mask_select_mismatch by (rewrite length_gt; congruence).
  cbn [heap files]. by rewrite !insert_insert_eq.
Qed.

Lemma filter_content_twice (p p1 : Prediction) (t1 t2 : Q) :
  (t1 <= t2)%Q → filter_content p t1 = Ok p1 →
  filter_content p1 t2 = filter_content p t2.
Proof.
  intros Hle H. unfold filter_content in *.
  destruct (mask_select (boxes p) (gt (scores p) t1)) as [b|] eqn:Eb; [|done].
  destruct (mask_select (scores p) (gt (scores p) t1)) as [s|] eqn:Es; [|done].
  destruct (mask_select (labels p) (gt (scores p) t1)) as [k|] eqn:Ek; [|done].
  injection H as <-. cbn [boxes scores labels].
  by rewrite (mask_select_twice _ _ _ _ _ _ Hle Eb Es),
     (mask_select_twice _ _ _ _ _ _ Hle Es Es),
     (mask_select_twice _ _ _ _ _ _ Hle Ek Es).
Qed.

Lemma filter_content_twice_rev (p p2 : Prediction) (t1 t2 : Q) :
  (t1 <= t2)%Q → filter_content p t2 = Ok p2 →
  filter_content p2 t1 = Ok p2.
Proof.
  intros Hle H. unfold filter_content in *.
  destruct (mask_select (boxes p) (gt (scores p) t2)) as [b|] eqn:Eb; [|done].
  destruct (mask_select (scores p) (gt (scores p) t2)) as [s|] eqn:Es; [|done].
  destruct (mask_select (labels p) (gt (scores p) t2)) as [k|] eqn:Ek; [|done].
  injection H as <-. cbn [boxes scores labels].
  by rewrite (mask_select_twice_rev _ _ _ _ _ _ Hle Eb Es),
     (mask_select_twice_rev _ _ _ _ _ _ Hle Es Es),
     (mask_select_twice_rev _ _ _ _ _ _ Hle Ek Es).
Qed.

(** X6.  Filtering twice is filtering once at the higher threshold, in
    either order; in particular [filter_score] is idempotent. *)
Theorem filter_score_twice (w w2 : world) (l l2 : loc) (p : Prediction) (t1 t2 : Q) :
  heap w !! l = Some p → (t1 <= t2)%Q →
  filter_score l t2 w = (Ok l2, w2) →
  (filter_score l t1 ≫= λ l', filter_score l' t2) w = (Ok l2, w2) ∧
  (filter_score l t2 ≫= λ l', filter_score l' t1) w = (Ok l2, w2).
Proof.
  intros Hl Hle Hrun.
  destruct (filter_score_inv _ _ _ _ _ _ Hl Hrun) as (p2 & H2 & -> & ->).
  assert (∃ p1, filter_content p t1 = Ok p1) as [p1 H1].
  { apply filter_content_well_formed.
    - unfold filter_content in H2.
      destruct (mask_select (boxes p) _) as [b|] eqn:Eb; [|done].
      apply mask_select_length_eq in Eb. by rewrite length_gt in Eb.
    - unfold filter_content in H2.
      destruct (mask_select (boxes p) _) as [b|]; [|done].
      destruct (mask_select (scores p) _) as [s|]; [|done].
      destruct (mask_select (labels p) _) as [k|] eqn:Ek; [|done].
      apply mask_select_length_eq in Ek. by rewrite length_gt in Ek. }
  split.
  - rewrite (bind_run_ok _ _ _ _ _ (filter_score_ok _ _ _ _ _ Hl H1)).
    erewrite filter_score_ok; [|apply lookup_insert_eq|].
    2:{ rewrite (filter_content_twice _ _ _ _ Hle H1). exact H2. }
    cbn [heap files]. by rewrite insert_insert_eq.
  - rewrite (bind_run_ok _ _ _ _ _ (filter_score_ok _ _ _ _ _ Hl H2)).
    erewrite filter_score_ok; [|apply lookup_insert_eq|].
    2:{ by apply (filter_content_twice_rev p p2 t1 t2). }
    cbn [heap files]. by rewrite insert_insert_eq.
Qed.

Lemma keeps_files_apply_nms (l : loc) (t : Q) : keeps_files (apply_nms nms l t).
Proof. unfold apply_nms. keeps_files. Qed.

Lemma keeps_files_filter_score (l : loc) (t : Q) : keeps_files (filter_score l t).
Proof. unfold filter_score. keeps_files. Qed.

Lemma filter_score_returns_loc (l l' : loc) (t : Q) (w w' : world) :
  filter_score l t w = (Ok l', w') → l' = l.
Proof.
  unfold filter_score. intros H.
  repeat (rewrite bind_run in H;
          match type of H with
          | context [match ?m with (_, _) => _ end] =>
              destruct m as [[?|?] ?]; [|done]
          end).
  unfold mret, M_ret in H. congruence.
Qed.

(** X7.  [apply_nms] and [filter_score] work in place: whatever the
    outcome, no other dictionary and no file changes, and the reference
    returned is the one given. *)
Theorem suppression_and_filtering_mutate_in_place
    (l l' : loc) (t : Q) (w : world) :
  l' ≠ l →
  (heap (snd (apply_nms nms l t w)) !! l' = heap w !! l' ∧
   files (snd (apply_nms nms l t w)) = files w ∧
   ∀ r, fst (apply_nms nms l t w) = Ok r → r = l) ∧
  (heap (snd (filter_score l t w)) !! l' = heap w !! l' ∧
   files (snd (filter_score l t w)) = files w ∧
   ∀ r, fst (filter_score l t w) = Ok r → r = l).
Proof.
  intros Hne. split; split.
  - apply touches_only_apply_nms. by intros ?%list_elem_of_singleton.
  - split; [apply keeps_files_apply_nms|].
    intros r Hr. destruct (apply_nms nms l t w) as [r' w'] eqn:E. simpl in Hr. subst r'.
    by eapply apply_nms_returns_loc.
  - apply touches_only_filter_score. by intros ?%list_elem_of_singleton.
  - split; [apply keeps_files_filter_score|].
    intros r Hr. destruct (filter_score l t w) as [r' w'] eqn:E. simpl in Hr. subst r'.
    by eapply filter_score_returns_loc.
Qed.

(** ** [predict] *)

Lemma touches_only_predict_one (C : nat) (l : loc) :
  touches_only [l] (predict_one nms C l).
Proof.
  unfold predict_one.
  apply (touches_only_bind_val _ _ _ (λ l1, l1 = l));
    [apply touches_only_apply_nms|intros ????; by eapply apply_nms_returns_loc|].
  intros ? ->.
  apply (touches_only_bind_val _ _ _ (λ l1, l1 = l));
    [apply touches_only_filter_score|intros ????; by eapply filter_score_returns_loc|].
  intros ? ->. touches_only.
Qed.

Lemma touches_only_for_each {A B} (ls : list loc) (f : A → M B) (l : list A) :
  (∀ a, a ∈ l → touches_only ls (f a)) → touches_only ls (for_each f l).
Proof.
  induction l as [|a l IH]; intros Hf; cbn [for_each]; [apply touches_only_ret|].
  apply touches_only_bind; [apply Hf; by left|]. intros b.
  apply touches_only_bind; [|intros ?; apply touches_only_ret].
  apply IH. intros a' Ha'. apply Hf. by right.
Qed.

(** X8.  [predict] returns one record per raw detection of the batch, and
    every objectness score in every record is 1. *)
Theorem predict_one_record_per_image
    (self : PytorchFasterRCNNWrapper) (x : list Image) (w : world)
    (recs : list DetectionRecord) :
  fst (predict nms self x w) = Ok recs →
  length recs = length (_model self x) ∧
  Forall (λ r, Forall (λ o, o = 1%Q) (objectness_scores r)) recs.
Proof.
  rewrite predict_result. intros H%adapt_all_Forall2. split.
  - symmetry. by eapply Forall2_length.
  - eapply Forall2_Forall_r; [exact H|]. apply Forall_true.
    intros p r (p' & _ & ->)%adapt_inv. cbn [record_of objectness_scores].
    apply Forall_forall. by intros o [-> _]%elem_of_replicate.
Qed.

(** X9.  The boxes of the [n]-th record come from the [n]-th raw detection:
    each is one of its boxes, and there are no more of them than indices
    kept by suppression. *)
Theorem predict_boxes_come_from_detector
    (self : PytorchFasterRCNNWrapper) (x : list Image) (w : world)
    (recs : list DetectionRecord) (n : nat) (rec : DetectionRecord) :
  fst (predict nms self x w) = Ok recs → recs !! n = Some rec →
  ∃ p, _model self x !! n = Some p ∧
       (∀ b, b ∈ bounding_boxes rec → b ∈ boxes p) ∧
       length (bounding_boxes rec) ≤ length (nms (boxes p) (scores p) 0.005%Q).
Proof.
  rewrite predict_result. intros H%adapt_all_Forall2 Hrec.
  destruct (Forall2_lookup_r _ _ _ _ _ H Hrec) as (p & Hp & Ha).
  exists p. split; [done|].
  apply adapt_inv in Ha as (p' & Hs & ->). cbn [record_of bounding_boxes].
  unfold survivors in Hs.
  destruct (nms_content nms p _) as [p1|] eqn:E1; [|done].
  rewrite result_bind_ok in Hs. unfold nms_content in E1.
  destruct (index_select (boxes p) _) as [b1|] eqn:Eb; [|done].
  destruct (index_select (scores p) _) as [s1|] eqn:Es; [|done].
  destruct (index_select (labels p) _) as [k1|] eqn:Ek; [|done].
  injection E1 as <-. unfold filter_content in Hs. cbn [boxes scores labels] in Hs.
  destruct (mask_select b1 _) as [b2|] eqn:Eb2; [|done].
  destruct (mask_select s1 _) as [s2|]; [|done].
  destruct (mask_select k1 _) as [k2|]; [|done].
  injection Hs as <-. cbn [boxes].
  apply mask_select_sublist in Eb2. split.
  - intros b Hb. eapply index_select_elem; [exact Eb|].
    by apply (sublist_subseteq _ _ Eb2).
  - rewrite <- (index_select_length _ _ _ Eb). by apply sublist_length.
Qed.

(** X10.  [predict] writes no file and changes no dictionary that existed
    before the call, whether it returns or raises. *)
Theorem predict_leaves_the_world_alone
    (self : PytorchFasterRCNNWrapper) (x : list Image) (w : world) :
  files (snd (predict nms self x w)) = files w ∧
  ∀ l p, heap w !! l = Some p → heap (snd (predict nms self x w)) !! l = Some p.
Proof.
  split; [apply keeps_files_predict|]. intros l p Hl. unfold predict.
  destruct (for_each_alloc (_model self x) w) as (ls & w' & Hrun & _ & Hfresh & _ & Hsub).
  rewrite (bind_run_ok _ _ _ _ _ Hrun).
  rewrite (touches_only_for_each ls (predict_one nms (_number_of_classes self)) ls).
  - by eapply lookup_weaken.
  - intros l0 Hl0. eapply touches_only_weaken; [|apply touches_only_predict_one].
    by intros ? ->%list_elem_of_singleton.
  - intros Hin. rewrite Forall_forall in Hfresh. specialize (Hfresh _ Hin). congruence.
Qed.






End AdapterExtras.

(* ===================================================================== *)
(** * Further properties of the orchestrator *)
(* ===================================================================== *)

Ltac rsimpl :=
  cbn [of_option]; rewrite ?result_bind_ok, ?result_bind_raise; cbv beta iota.

Lemma draw_panel_array (detections : list DetectionRecord) (vs : list SaliencyResult)
    (img : Image) (savename : string) (n img_index i : nat) (l : list Axes) (w : world) :
  1 < n → l !! i = Some empty_axes →
  draw_panel detections vs img savename n img_index i (AxesArray l) w
  = match panel detections vs img img_index i with
    | Ok a =>
        (Ok (AxesArray (<[i := a]> l)),
         mkWorld (heap w)
           (<[savename := FigureFile (AxesArray (<[i := a]> l))]> (files w)))
    | Raise e => (Raise e, w)
    end.
Proof.
  intros Hn Hi. pose proof (lookup_lt_Some _ _ _ Hi) as Hlen.
  unfold draw_panel, panel.
  rewrite bind_lift_run. destruct (vs !! i) as [r|]; rsimpl; [|done].
  rewrite bind_lift_run. cbn [axes_getitem]. rewrite Hi. cbn [of_option].
  rewrite bind_lift_run. cbn [axes_setitem]. rewrite decide_True by done.
  rewrite bind_lift_run. destruct (detections !! img_index) as [d|]; rsimpl; [|done].
  rewrite bind_lift_run. destruct (bounding_boxes d !! i) as [box|]; rsimpl; [|done].
  rewrite bind_lift_run. cbn [of_option].
  rewrite bind_lift_run. destruct (class_scores d !! i) as [row|]; rsimpl; [|done].
  rewrite bind_lift_run. destruct (argmax row) as [label|]; rsimpl; [|done].
  rewrite bind_run. rewrite decide_True by done.
  rewrite bind_lift_run. cbn [axes_getitem].
  rewrite list_lookup_insert_eq by done. cbn [of_option].
  unfold lift. cbn [axes_setitem]. rewrite decide_True by (by rewrite length_insert).
  rewrite list_insert_insert_eq. reflexivity.
Qed.


(** The rendering loop over an array of Axes, from panel [j] on. *)
Lemma render_loop (detections : list DetectionRecord) (vs : list SaliencyResult)
    (img : Image) (savename : string) (n img_index : nat) :
  1 < n →
  ∀ k j l w, j + k = n → length l = n →
    (∀ i, j ≤ i < n → l !! i = Some empty_axes) →
    match for_loop (draw_panel detections vs img savename n img_index) (seq j k)
            (AxesArray l) w with
    | (Ok axis', w') =>
        ∃ l', axis' = AxesArray l' ∧ length l' = n ∧
              (∀ i, i < j → l' !! i = l !! i) ∧
              (∀ i, j ≤ i < n →
                    panel detections vs img img_index i = Ok (default empty_axes (l' !! i))) ∧
              heap w' = heap w ∧
              (∀ path, path ≠ savename → files w' !! path = files w !! path) ∧
              (0 < k → files w' !! savename = Some (FigureFile axis')) ∧
              (k = 0 → l' = l ∧ w' = w)
    | (Raise e, w') =>
        (∃ i, j ≤ i < n ∧ panel detections vs img img_index i = Raise e) ∧
        heap w' = heap w ∧
        (∀ path, path ≠ savename → files w' !! path = files w !! path)
    end.
Proof.
  intros Hn. induction k as [|k IH]; intros j l w Hjk Hlen Hempty.
  - cbn. exists l. split; [done|]. split; [done|]. split; [done|].
    split; [intros; lia|]. split; [done|]. split; [done|]. split; [lia|done].
  - cbn [seq for_loop]. rewrite bind_run.
    rewrite draw_panel_array by (done || apply Hempty; lia).
    destruct (panel detections vs img img_index j) as [a|e] eqn:Ea.
    + match goal with |- context [for_loop _ _ (AxesArray ?l1) ?w1] =>
        specialize (IH (S j) l1 w1) end.
      destruct (for_loop _ (seq (S j) k) _ _) as [[axis'|e] w'].
      * destruct IH as (l' & -> & Hl' & Hbefore & Hafter & Hheap & Hother & Hsaved & Hzero).
        { lia. } { by rewrite length_insert. }
        { intros i Hi. rewrite list_lookup_insert_ne by lia. apply Hempty. lia. }
        exists l'. split; [done|]. split; [done|].
        split; [|split; [|split; [|split; [|split]]]].
        -- intros i Hi. rewrite Hbefore by lia. by rewrite list_lookup_insert_ne by lia.
        -- intros i Hi. destruct (decide (i = j)) as [->|Hne]; [|apply Hafter; lia].
           rewrite Hbefore by lia. rewrite list_lookup_insert_eq by lia. done.
        -- done.
        -- intros path Hp. rewrite Hother by done. cbn [files].
           by rewrite lookup_insert_ne.
        -- intros _. destruct k as [|k].
           ++ destruct (Hzero eq_refl) as [-> ->]. cbn [files]. apply lookup_insert_eq.
           ++ apply Hsaved. lia.
        -- done.
      * destruct IH as ((i & Hi & Hp) & Hheap & Hother).
        { lia. } { by rewrite length_insert. }
        { intros i Hi. rewrite list_lookup_insert_ne by lia. apply Hempty. lia. }
        split; [exists i; split; [lia|done]|]. split; [done|].
        intros path Hpath. rewrite Hother by done. cbn [files].
        by rewrite lookup_insert_ne.
    + split; [|done]. exists j. split; [lia|done].
Qed.

Lemma subplots_many (n : nat) : 1 < n → subplots n = AxesArray (replicate n empty_axes).
Proof. intros Hn. unfold subplots. by rewrite decide_False by lia. Qed.

Section OrchestratorExtras.

Variable Image_open : string → Image.

(** With two or more valid results the presentation is the rendering loop
    over an array of empty Axes. *)
Lemma present_saliency_many (detections : list DetectionRecord)
    (sal : list (list SaliencyResult)) (s : list SaliencyResult)
    (img : Image) (savename : string) (w : world) :
  sal !! 0 = Some s → 1 < length (filter valid s) →
  present_saliency Image_open detections sal img savename w
  = match for_loop
            (draw_panel detections (filter valid s) img savename
               (length (filter valid s)) 0)
            (seq 0 (length (filter valid s)))
            (AxesArray (replicate (length (filter valid s)) empty_axes)) w with
    | (Ok axis, w') => (Ok (Some (axis, savename)), w')
    | (Raise e, w') => (Raise e, w')
    end.
Proof.
  intros Hs Hn. unfold present_saliency. rewrite bind_lift_run, Hs. cbn [of_option].
  rewrite decide_False by lia. rewrite bind_run, subplots_many by done. reflexivity.
Qed.

Lemma render_all (detections : list DetectionRecord) (vs : list SaliencyResult)
    (img : Image) (savename : string) (w : world) :
  1 < length vs →
  match for_loop (draw_panel detections vs img savename (length vs) 0)
          (seq 0 (length vs)) (AxesArray (replicate (length vs) empty_axes)) w with
  | (Ok axis', w') =>
      ∃ l', axis' = AxesArray l' ∧
            Forall2 (λ i a, panel detections vs img 0 i = Ok a) (seq 0 (length vs)) l' ∧
            w' = mkWorld (heap w) (<[savename := FigureFile axis']> (files w))
  | (Raise e, w') =>
      (∃ i, i < length vs ∧ panel detections vs img 0 i = Raise e) ∧
      heap w' = heap w ∧
      (∀ path, path ≠ savename → files w' !! path = files w !! path)
  end.
Proof.
  intros Hn.
  pose proof (render_loop detections vs img savename (length vs) 0 Hn (length vs) 0
                (replicate (length vs) empty_axes) w eq_refl
                (length_replicate _ _)) as H.
  destruct (for_loop _ _ _ _) as [[axis'|e] w'].
  - destruct H as (l' & -> & Hlen & _ & Hpanels & Hheap & Hother & Hsaved & _).
    { intros i Hi. apply lookup_replicate_2. lia. }
    exists l'. split; [done|]. split.
    + apply Forall2_same_length_lookup. split; [by rewrite length_seq|].
      intros i j a Hj Ha. apply lookup_seq in Hj as [-> Hlt]. simpl.
      rewrite Hpanels by lia. by rewrite Ha.
    + destruct w' as [h f]. cbn [heap files] in *. f_equal; [done|].
      apply map_eq. intros path. destruct (decide (path = savename)) as [->|Hne].
      * rewrite lookup_insert_eq. apply Hsaved. lia.
      * rewrite lookup_insert_ne by done. by apply Hother.
  - destruct H as ((i & Hi & Hp) & Hheap & Hother).
    { intros i Hi. apply lookup_replicate_2. lia. }
    split; [exists i; split; [lia|done]|done].
Qed.



(** X14.  When no result of image 0 holds a NaN and a figure is returned,
    it has one panel per result, and panel [i] shows the map of result [i]
    with box [i] and the label of score row [i]: the same detection. *)
Theorem unfiltered_results_pair_with_their_detection
    (detections : list DetectionRecord) (sal : list (list SaliencyResult))
    (s : list SaliencyResult) (img : Image) (savename : string) (w : world)
    (fig : Figure) (path : string) :
  sal !! 0 = Some s → Forall valid s →
  fst (present_saliency Image_open detections sal img savename w) = Ok (Some (fig, path)) →
  ∃ d, detections !! 0 = Some d ∧
       length (axes_list fig) = length s ∧
       ∀ i r, s !! i = Some r →
         ∃ box row label,
           bounding_boxes d !! i = Some box ∧ class_scores d !! i = Some row ∧
           argmax row = Ok label ∧
           axes_list fig !! i
           = Some (plot_img_bbox
                     (visualize_image_attr (detection r) img i empty_axes)
                     box label "r").
Proof.
  intros Hs Hv.
  assert (Hfilter : filter valid s = s).
  { clear Hs. induction Hv as [|r s Hr _ IH]; [done|].
    by rewrite filter_cons_True, IH. }
  destruct (decide (1 < length s)) as [Hn|Hn].
  - rewrite (present_saliency_many _ _ _ _ _ _ Hs) by (by rewrite Hfilter).
    rewrite Hfilter.
    pose proof (render_all detections s img savename w Hn) as H.
    destruct (for_loop _ _ _ _) as [[axis'|e] w']; cbn [fst]; [|done].
    destruct H as (l' & -> & Hall & _). intros [= <- <-]. cbn [axes_list].
    apply Forall2_same_length_lookup in Hall as [Hlen Hall].
    rewrite length_seq in Hlen.
    assert (Hd : ∃ d, detections !! 0 = Some d).
    { destruct (lookup_lt_is_Some_2 l' 0) as [a Ha]; [lia|].
      assert (H0 : 0 < length s) by lia.
      specialize (Hall 0 0 a (lookup_seq_lt _ _ _ H0) Ha). simpl in Hall.
      unfold panel in Hall. destruct (s !! 0); rsimpl; [|done].
      destruct (detections !! 0); [eauto|done]. }
    destruct Hd as [d Hd]. exists d. split; [done|]. split; [done|].
    intros i r Hr. pose proof (lookup_lt_Some _ _ _ Hr) as Hi.
    destruct (lookup_lt_is_Some_2 l' i) as [a Ha]; [lia|].
    specialize (Hall i i a (lookup_seq_lt _ _ _ Hi) Ha). simpl in Hall.
    unfold panel in Hall. rewrite Hr, Hd in Hall. rsimpl.
    revert Hall. rsimpl.
    destruct (bounding_boxes d !! i) as [box|]; rsimpl; [|done].
    destruct (class_scores d !! i) as [row|]; rsimpl; [|done].
    destruct (argmax row) as [label|] eqn:El; rsimpl; [|done].
    intros [= <-]. by exists box, row, label.
  - unfold present_saliency. rewrite bind_lift_run, Hs. cbn [of_option]. rewrite Hfilter.
    destruct s as [|r [|r' s]]; [done| |simpl in Hn; lia].
    rewrite decide_False by done. rewrite bind_run. cbn [length seq for_loop].
    rewrite bind_run. unfold draw_panel. rewrite bind_lift_run. cbn.
    done.
Qed.

(** With exactly one valid result the loop subscripts a single Axes. *)
Lemma present_saliency_single
    (detections : list DetectionRecord) (sal : list (list SaliencyResult))
    (s : list SaliencyResult) (img : Image) (savename : string) (w : world) :
  sal !! 0 = Some s → length (filter valid s) = 1 →
  present_saliency Image_open detections sal img savename w = (Raise TypeError, w).
Proof.
  intros Hs Hn. unfold present_saliency. rewrite bind_lift_run, Hs. cbn [of_option].
  destruct (filter valid s) as [|r [|r' vs]] eqn:E; [done| |done].
  rewrite decide_False by done. rewrite bind_run. cbn [length seq for_loop].
  rewrite bind_run. unfold draw_panel. rewrite bind_lift_run. cbn [lookup list_lookup of_option].
  rewrite bind_lift_run. reflexivity.
Qed.


Variable nms : list Box → list Q → Q → list nat.
Variable pretrained : Detector.
Variable load_user_model : string → nat → Detector.
Variable DRISE_saliency :
  PytorchFasterRCNNWrapper → list Image → list DetectionRecord → nat → nat * nat →
  list (list SaliencyResult).

(** X15.  When exactly one saliency result of image 0 passes the NaN filter,
    the run raises TypeError (the single Axes object is subscripted) and
    writes no file. *)
Theorem single_valid_result_raises_TypeError
    (imagelocation : string) (modellocation : option string) (numclasses : nat)
    (savename : string) (nummasks : nat) (maskres : nat * nat) (w w1 : world)
    (detections : list DetectionRecord) (s : list SaliencyResult) :
  let test_image := Image_open imagelocation in
  let wr := explainable_wrapper_of pretrained load_user_model modellocation numclasses in
  predict nms wr (replicate 2 test_image) w = (Ok detections, w1) →
  DRISE_saliency wr (replicate 2 test_image) detections nummasks maskres !! 0 = Some s →
  length (filter valid s) = 1 →
  get_drise_saliency_map nms Image_open pretrained load_user_model DRISE_saliency
    imagelocation modellocation numclasses savename nummasks maskres w
  = (Raise TypeError, w1) ∧ files w1 = files w.
Proof.
  intros test_image wr Hp Hs Hn. rewrite get_drise_saliency_map_run. cbv zeta.
  fold test_image. fold wr. rewrite Hp.
  rewrite (present_saliency_single _ _ _ _ _ _ Hs Hn). split; [done|].
  pose proof (keeps_files_predict nms wr (replicate 2 test_image) w) as Hfiles.
  by rewrite Hp in Hfiles.
Qed.


(** X17.  An exception of the adapter ends the run: it is raised unchanged,
    the estimator's results are not looked at, and no file is written. *)
Theorem adapter_failure_ends_the_run
    (imagelocation : string) (modellocation : option string) (numclasses : nat)
    (savename : string) (nummasks : nat) (maskres : nat * nat) (w : world) (e : exn) :
  let test_image := Image_open imagelocation in
  let wr := explainable_wrapper_of pretrained load_user_model modellocation numclasses in
  fst (predict nms wr (replicate 2 test_image) w) = Raise e →
  get_drise_saliency_map nms Image_open pretrained load_user_model DRISE_saliency
    imagelocation modellocation numclasses savename nummasks maskres w
  = (Raise e, snd (predict nms wr (replicate 2 test_image) w)) ∧
  files (snd (predict nms wr (replicate 2 test_image) w)) = files w.
Proof.
  intros test_image wr Hp. rewrite get_drise_saliency_map_run. cbv zeta.
  fold test_image. fold wr. split; [|apply keeps_files_predict].
  destruct (predict nms wr (replicate 2 test_image) w) as [[d|e'] w1]; simpl in *;
    congruence.
Qed.

End OrchestratorExtras.

(* ===================================================================== *)
(** * Instances of the further properties *)
(* ===================================================================== *)

Lemma apply_nms_keeps_detections_aligned_witness :
  ∃ p', heap (snd (apply_nms greedy_nms 0 0.005%Q (mkWorld {[0 := three_raw]} ∅))) !! 0
        = Some p' ∧
        length (boxes p') = 3 ∧
        boxes p' !! 1 = Some box_1 ∧ scores p' !! 1 = Some 0.8%Q ∧ labels p' !! 1 = Some 2.
Proof.
  destruct (apply_nms_keeps_detections_aligned greedy_nms
              (mkWorld {[0 := three_raw]} ∅)
              (snd (apply_nms greedy_nms 0 0.005%Q (mkWorld {[0 := three_raw]} ∅)))
              0 0 three_raw 0.005%Q)
    as (_ & p' & Hp' & Hb & _ & _ & Hall);
    [reflexivity|vm_compute; reflexivity|].
  exists p'. split; [exact Hp'|]. split; [exact Hb|].
  destruct (Hall 1 1 eq_refl) as (H1 & H2 & H3).
  split; [exact H1|]. split; [exact H2|exact H3].
Defined.

Lemma apply_nms_index_out_of_range_witness :
  apply_nms stray_nms 0 0.005%Q (mkWorld {[0 := three_raw]} ∅)
  = (Raise IndexError, mkWorld {[0 := three_raw]} ∅).
Proof.
  apply (apply_nms_index_out_of_range stray_nms (mkWorld {[0 := three_raw]} ∅) 0
           three_raw 0.005%Q); [reflexivity|].
  intros H. change (Forall (λ j, j < 3) [5]) in H.
  apply Forall_inv in H. cbv beta in H. lia.
Defined.

Lemma filter_score_keeps_exactly_witness :
  ∃ p', heap (snd (filter_score 0 0.85%Q (mkWorld {[0 := three_raw]} ∅))) !! 0 = Some p' ∧
        triples p' = filter (λ x, Qltb 0.85%Q x.2.1 = true) (triples three_raw) ∧
        Forall (λ x, (0.85 < x)%Q) (scores p').
Proof.
  destruct (filter_score_keeps_exactly (mkWorld {[0 := three_raw]} ∅)
              (snd (filter_score 0 0.85%Q (mkWorld {[0 := three_raw]} ∅)))
              0 0 three_raw 0.85%Q)
    as (_ & _ & p' & Hp' & Ht & _ & _ & Hs);
    [reflexivity|vm_compute; reflexivity|].
  exists p'. split; [exact Hp'|]. split; [exact Ht|exact Hs].
Defined.

Lemma filter_score_length_mismatch_witness :
  filter_score 0 0.2%Q (mkWorld {[0 := boxless_raw]} ∅)
  = (Raise IndexError, mkWorld {[0 := boxless_raw]} ∅).
Proof.
  apply (filter_score_length_mismatch (mkWorld {[0 := boxless_raw]} ∅) 0 boxless_raw 0.2%Q);
    [reflexivity|vm_compute; lia].
Defined.

Lemma filter_score_fails_half_way_witness :
  ∃ b s,
    mask_select (boxes unlabelled_raw) (gt (scores unlabelled_raw) 0.2%Q) = Ok b ∧
    mask_select (scores unlabelled_raw) (gt (scores unlabelled_raw) 0.2%Q) = Ok s ∧
    filter_score 0 0.2%Q (mkWorld {[0 := unlabelled_raw]} ∅)
    = (Raise IndexError,
       mkWorld (<[0 := {| boxes := b; scores := s; labels := labels unlabelled_raw |}]>
                  (heap (mkWorld {[0 := unlabelled_raw]} ∅)))
         (files (mkWorld {[0 := unlabelled_raw]} ∅))).
Proof.
  apply (filter_score_fails_half_way (mkWorld {[0 := unlabelled_raw]} ∅) 0
           unlabelled_raw 0.2%Q); [reflexivity|reflexivity|vm_compute; lia].
Defined.

Lemma filter_score_twice_witness :
  (filter_score 0 0.2%Q ≫= λ l', filter_score l' 0.85%Q) (mkWorld {[0 := three_raw]} ∅)
  = filter_score 0 0.85%Q (mkWorld {[0 := three_raw]} ∅) ∧
  (filter_score 0 0.85%Q ≫= λ l', filter_score l' 0.2%Q) (mkWorld {[0 := three_raw]} ∅)
  = filter_score 0 0.85%Q (mkWorld {[0 := three_raw]} ∅).
Proof.
  destruct (filter_score_twice (mkWorld {[0 := three_raw]} ∅)
              (snd (filter_score 0 0.85%Q (mkWorld {[0 := three_raw]} ∅)))
              0 0 three_raw 0.2%Q 0.85%Q) as [H1 H2];
    [reflexivity|vm_compute; discriminate|vm_compute; reflexivity|].
  split; (etrans; [eassumption|vm_compute; reflexivity]).
Defined.

Lemma mutate_in_place_witness :
  heap (snd (filter_score 0 0.85%Q (mkWorld {[0 := three_raw; 1 := example_raw]} ∅))) !! 1
  = Some example_raw.
Proof.
  destruct (suppression_and_filtering_mutate_in_place greedy_nms 0 1 0.85%Q
              (mkWorld {[0 := three_raw; 1 := example_raw]} ∅)) as [_ [H _]];
    [discriminate|].
  etrans; [exact H|reflexivity].
Defined.

Lemma predict_one_record_per_image_witness :
  length [record_of 5 three_raw; record_of 5 three_raw]
  = length (constant_detector three_raw [example_image; example_image]) ∧
  Forall (λ r, Forall (λ o, o = 1%Q) (objectness_scores r))
    [record_of 5 three_raw; record_of 5 three_raw].
Proof.
  apply (predict_one_record_per_image greedy_nms
           (mkWrapper (constant_detector three_raw) 5)
           [example_image; example_image] empty_world).
  vm_compute; reflexivity.
Defined.

Lemma predict_boxes_come_from_detector_witness :
  ∃ p, constant_detector three_raw [example_image; example_image] !! 0 = Some p ∧
       (∀ b, b ∈ bounding_boxes (record_of 5 three_raw) → b ∈ boxes p) ∧
       length (bounding_boxes (record_of 5 three_raw))
       ≤ length (greedy_nms (boxes p) (scores p) 0.005%Q).
Proof.
  apply (predict_boxes_come_from_detector greedy_nms
           (mkWrapper (constant_detector three_raw) 5)
           [example_image; example_image] empty_world
           [record_of 5 three_raw; record_of 5 three_raw] 0 (record_of 5 three_raw));
    [vm_compute; reflexivity|reflexivity].
Defined.

Lemma predict_leaves_the_world_alone_witness :
  heap (snd (predict greedy_nms (mkWrapper (constant_detector three_raw) 5)
               [example_image; example_image] (mkWorld {[0 := example_raw]} ∅))) !! 0
  = Some example_raw.
Proof.
  apply (predict_leaves_the_world_alone greedy_nms
           (mkWrapper (constant_detector three_raw) 5)
           [example_image; example_image] (mkWorld {[0 := example_raw]} ∅)).
  reflexivity.
Defined.




Lemma unfiltered_results_witness :
  ∃ d, [record_of 5 three_raw] !! 0 = Some d ∧
       ∃ box row label,
         bounding_boxes d !! 1 = Some box ∧ class_scores d !! 1 = Some row ∧
         argmax row = Ok label ∧
         [plot_img_bbox (visualize_image_attr (detection map_1) example_image 0 empty_axes)
            box_0 1 "r";
          plot_img_bbox (visualize_image_attr (detection map_2) example_image 1 empty_axes)
            box_1 2 "r"] !! 1
         = Some (plot_img_bbox
                   (visualize_image_attr (detection map_2) example_image 1 empty_axes)
                   box label "r").
Proof.
  destruct (unfiltered_results_pair_with_their_detection example_open
              [record_of 5 three_raw] [[map_1; map_2]] [map_1; map_2]
              example_image "res/outputmaps.jpg" empty_world
              (AxesArray
                 [plot_img_bbox
                    (visualize_image_attr (detection map_1) example_image 0 empty_axes)
                    box_0 1 "r";
                  plot_img_bbox
                    (visualize_image_attr (detection map_2) example_image 1 empty_axes)
                    box_1 2 "r"])
              "res/outputmaps.jpg") as (d & Hd & _ & Hall);
    [reflexivity|repeat constructor|vm_compute; reflexivity|].
  exists d. split; [exact Hd|]. exact (Hall 1 map_2 eq_refl).
Defined.

Lemma single_valid_result_witness :
  get_drise_saliency_map greedy_nms example_open
    (constant_detector three_raw) (λ _ _, constant_detector three_raw)
    (constant_estimator [[nan_map; map_1]; [nan_map; map_1]])
    "images/cartons.jpg" (Some "model.pt") 5 "res/outputmaps.jpg" 25 (4, 4) empty_world
  = (Raise TypeError,
     snd (predict greedy_nms (mkWrapper (constant_detector three_raw) 5)
            [example_image; example_image] empty_world)) ∧
  files (snd (predict greedy_nms (mkWrapper (constant_detector three_raw) 5)
                [example_image; example_image] empty_world)) = files empty_world.
Proof.
  apply (single_valid_result_raises_TypeError example_open greedy_nms
           (constant_detector three_raw) (λ _ _, constant_detector three_raw)
           (constant_estimator [[nan_map; map_1]; [nan_map; map_1]])
           "images/cartons.jpg" (Some "model.pt") 5 "res/outputmaps.jpg" 25 (4, 4)
           empty_world
           (snd (predict greedy_nms (mkWrapper (constant_detector three_raw) 5)
                   [example_image; example_image] empty_world))
           [record_of 5 three_raw; record_of 5 three_raw] [nan_map; map_1]);
    [vm_compute; reflexivity|reflexivity|reflexivity].
Defined.


Lemma adapter_failure_witness :
  fst (get_drise_saliency_map stray_nms example_open
         (constant_detector three_raw) (λ _ _, constant_detector three_raw)
         (constant_estimator [[map_1; map_2]; [map_1; map_2]])
         "images/cartons.jpg" None 5 "res/outputmaps.jpg" 25 (4, 4) empty_world)
  = Raise IndexError.
Proof.
  destruct (adapter_failure_ends_the_run example_open stray_nms
              (constant_detector three_raw) (λ _ _, constant_detector three_raw)
              (constant_estimator [[map_1; map_2]; [map_1; map_2]])
              "images/cartons.jpg" None 5 "res/outputmaps.jpg" 25 (4, 4) empty_world
              IndexError) as [H _]; [vm_compute; reflexivity|].
  exact (f_equal fst H).
Defined.
